(** * Console Connect API mock server: request handling ([src/app.ts])

    The development embeds [createApp] of [src/app.ts]: the custom ["JSON"]
    format predicate handed to ajv, the three fallback handlers given to the
    OpenAPI backend ([validationFail], [notFound], [notImplemented]), the
    registration of the [Heartbeat] handler and the Express middleware that
    forwards every request to [api.handleRequest].

    The backend itself (operation index, matcher, validator, mock synthesis
    and the routing inside [handleRequest]) is not part of [src/]; those
    definitions are written after the design document and each one says so. *)

From Stdlib Require Import NArith ZArith Lia Bool List Ascii String Permutation Sorted.
From stdpp Require Import base option list strings gmap.

Local Open Scope N_scope.

(** ** JavaScript values, [typeof] and [JSON.parse] *)

Module JS.

(** A JavaScript string is a sequence of UTF-16 code units. *)
Definition jsstring := list N.

(** Code units of an ASCII literal. *)
Fixpoint str (s : string) : jsstring :=
  match s with
  | EmptyString => []
  | String a r => N_of_ascii a :: str r
  end.

(** The values [JSON.parse] can return (and [res.json] can send). A number
    keeps the code units of its literal: the IEEE-754 value is fixed by them
    and nothing here inspects it. *)
#[warnings="-register-all"]
Inductive value :=
| JNull
| JBool (b : bool)
| JNumber (lexeme : jsstring)
| JString (s : jsstring)
| JArray (elems : list value)
| JObject (members : list (jsstring * value)).

(** [typeof v] for the values above; [typeof null] is ["object"]. *)
Definition typeof (v : value) : jsstring :=
  match v with
  | JNull => str "object"
  | JBool _ => str "boolean"
  | JNumber _ => str "number"
  | JString _ => str "string"
  | JArray _ => str "object"
  | JObject _ => str "object"
  end.

(** [a == b] for two strings. *)
Definition str_eqb (a b : jsstring) : bool := bool_decide (a = b).

(** Outcome of a call that may throw. [OutOfFuel] is an artefact of the
    fuel-indexed recursion below and is shown never to be returned by
    [JSON_parse]. *)
Inductive result (A : Type) :=
| Ok (a : A)
| SyntaxError
| OutOfFuel.
Arguments Ok {A} a.
Arguments SyntaxError {A}.
Arguments OutOfFuel {A}.

Definition bind {A B} (r : result A) (k : A -> result B) : result B :=
  match r with
  | Ok a => k a
  | SyntaxError => SyntaxError
  | OutOfFuel => OutOfFuel
  end.

Definition of_option {A} (o : option A) : result A :=
  match o with
  | Some a => Ok a
  | None => SyntaxError
  end.

(** JSON white space: tab, line feed, carriage return, space. *)
Definition is_ws (c : N) : bool :=
  (c =? 9) || (c =? 10) || (c =? 13) || (c =? 32).

Fixpoint skip_ws (s : jsstring) : jsstring :=
  match s with
  | c :: r => if is_ws c then skip_ws r else s
  | [] => []
  end.

Definition is_digit (c : N) : bool := (48 <=? c) && (c <=? 57).

Definition hex_digit (c : N) : option N :=
  if is_digit c then Some (c - 48)
  else if (97 <=? c) && (c <=? 102) then Some (c - 87)
  else if (65 <=? c) && (c <=? 70) then Some (c - 55)
  else None.

Definition hex4 (a b c d : N) : option N :=
  match hex_digit a, hex_digit b, hex_digit c, hex_digit d with
  | Some a, Some b, Some c, Some d => Some (((a * 16 + b) * 16 + c) * 16 + d)
  | _, _, _, _ => None
  end.

(** The single-character escapes: quote, backslash, slash, b, f, n, r, t. *)
Definition unescape (c : N) : option N :=
  if c =? 34 then Some 34
  else if c =? 92 then Some 92
  else if c =? 47 then Some 47
  else if c =? 98 then Some 8
  else if c =? 102 then Some 12
  else if c =? 110 then Some 10
  else if c =? 114 then Some 13
  else if c =? 116 then Some 9
  else None.

(** The characters of a string literal after its opening quote, up to and
    including the closing quote. *)
Fixpoint lex_string (s : jsstring) : option (jsstring * jsstring) :=
  match s with
  | [] => None
  | c :: r =>
      if c =? 34 then Some ([], r)
      else if c =? 92 then
        match r with
        | [] => None
        | e :: r1 =>
            if e =? 117 then
              match r1 with
              | h1 :: h2 :: h3 :: h4 :: r2 =>
                  match hex4 h1 h2 h3 h4, lex_string r2 with
                  | Some u, Some (cs, rest) => Some (u :: cs, rest)
                  | _, _ => None
                  end
              | _ => None
              end
            else
              match unescape e, lex_string r1 with
              | Some u, Some (cs, rest) => Some (u :: cs, rest)
              | _, _ => None
              end
        end
      else if c <? 32 then None
      else
        match lex_string r with
        | Some (cs, rest) => Some (c :: cs, rest)
        | None => None
        end
  end.

Fixpoint digits (s : jsstring) : jsstring * jsstring :=
  match s with
  | c :: r =>
      if is_digit c then let (ds, rest) := digits r in (c :: ds, rest)
      else ([], s)
  | [] => ([], [])
  end.

Definition digits1 (s : jsstring) : option (jsstring * jsstring) :=
  match digits s with
  | ([], _) => None
  | (ds, rest) => Some (ds, rest)
  end.

(** [0] or a non-zero digit followed by digits. *)
Definition lex_int (s : jsstring) : option (jsstring * jsstring) :=
  match s with
  | c :: r =>
      if c =? 48 then Some ([c], r)
      else if is_digit c then let (ds, rest) := digits r in Some (c :: ds, rest)
      else None
  | [] => None
  end.

Definition lex_frac (s : jsstring) : option (jsstring * jsstring) :=
  match s with
  | c :: r =>
      if c =? 46 then
        match digits1 r with
        | Some (ds, rest) => Some (c :: ds, rest)
        | None => None
        end
      else Some ([], s)
  | [] => Some ([], s)
  end.

Definition lex_exp (s : jsstring) : option (jsstring * jsstring) :=
  match s with
  | c :: r =>
      if (c =? 101) || (c =? 69) then
        match r with
        | sg :: r1 =>
            if (sg =? 43) || (sg =? 45) then
              match digits1 r1 with
              | Some (ds, rest) => Some (c :: sg :: ds, rest)
              | None => None
              end
            else
              match digits1 r with
              | Some (ds, rest) => Some (c :: ds, rest)
              | None => None
              end
        | [] => None
        end
      else Some ([], s)
  | [] => Some ([], s)
  end.

Definition lex_unsigned (s : jsstring) : option (jsstring * jsstring) :=
  match lex_int s with
  | Some (i, r1) =>
      match lex_frac r1 with
      | Some (f, r2) =>
          match lex_exp r2 with
          | Some (e, r3) => Some (i ++ f ++ e, r3)
          | None => None
          end
      | None => None
      end
  | None => None
  end.

Definition lex_number (s : jsstring) : option (jsstring * jsstring) :=
  match s with
  | c :: r =>
      if c =? 45 then
        match lex_unsigned r with
        | Some (l, rest) => Some (c :: l, rest)
        | None => None
        end
      else lex_unsigned s
  | [] => None
  end.

(** [strip_prefix p s] is the rest of [s] after [p], when [s] starts with [p]. *)
Fixpoint strip_prefix (p s : jsstring) : option jsstring :=
  match p, s with
  | [], _ => Some s
  | a :: p', b :: s' => if a =? b then strip_prefix p' s' else None
  | _ :: _, [] => None
  end.

Definition keyword (rest : string) (v : value) (s : jsstring)
  : result (value * jsstring) :=
  match strip_prefix (str rest) s with
  | Some r => Ok (v, r)
  | None => SyntaxError
  end.

(** Recursive descent over the JSON grammar. Every recursive call is made
    on a strictly shorter input, with one unit of fuel less. *)
Fixpoint parse_value (fuel : nat) (s : jsstring) : result (value * jsstring) :=
  match fuel with
  | O => OutOfFuel
  | S fuel =>
      match skip_ws s with
      | [] => SyntaxError
      | c :: r =>
          if c =? 123 then
            match skip_ws r with
            | d :: r1 =>
                if d =? 125 then Ok (JObject [], r1)
                else bind (parse_members fuel r [])
                       (fun '(ms, rest) => Ok (JObject ms, rest))
            | [] => SyntaxError
            end
          else if c =? 91 then
            match skip_ws r with
            | d :: r1 =>
                if d =? 93 then Ok (JArray [], r1)
                else bind (parse_elements fuel r [])
                       (fun '(vs, rest) => Ok (JArray vs, rest))
            | [] => SyntaxError
            end
          else if c =? 34 then
            bind (of_option (lex_string r))
              (fun '(cs, rest) => Ok (JString cs, rest))
          else if c =? 116 then keyword "rue" (JBool true) r
          else if c =? 102 then keyword "alse" (JBool false) r
          else if c =? 110 then keyword "ull" JNull r
          else
            bind (of_option (lex_number (c :: r)))
              (fun '(l, rest) => Ok (JNumber l, rest))
      end
  end
with parse_elements (fuel : nat) (s : jsstring) (acc : list value)
  : result (list value * jsstring) :=
  match fuel with
  | O => OutOfFuel
  | S fuel =>
      bind (parse_value fuel s)
        (fun '(v, r) =>
           match skip_ws r with
           | d :: r1 =>
               if d =? 44 then parse_elements fuel r1 (v :: acc)
               else if d =? 93 then Ok (rev (v :: acc), r1)
               else SyntaxError
           | [] => SyntaxError
           end)
  end
with parse_members (fuel : nat) (s : jsstring) (acc : list (jsstring * value))
  : result (list (jsstring * value) * jsstring) :=
  match fuel with
  | O => OutOfFuel
  | S fuel =>
      match skip_ws s with
      | q :: r =>
          if q =? 34 then
            bind (of_option (lex_string r))
              (fun '(k, r1) =>
                 match skip_ws r1 with
                 | col :: r2 =>
                     if col =? 58 then
                       bind (parse_value fuel r2)
                         (fun '(v, r3) =>
                            match skip_ws r3 with
                            | d :: r4 =>
                                if d =? 44 then parse_members fuel r4 ((k, v) :: acc)
                                else if d =? 125 then Ok (rev ((k, v) :: acc), r4)
                                else SyntaxError
                            | [] => SyntaxError
                            end)
                     else SyntaxError
                 | [] => SyntaxError
                 end)
          else SyntaxError
      | [] => SyntaxError
      end
  end.

(** A JSON text is one value with optional white space around it. *)
Definition parse_text (fuel : nat) (s : jsstring) : result value :=
  bind (parse_value fuel s)
    (fun '(v, r) =>
       match skip_ws r with
       | [] => Ok v
       | _ :: _ => SyntaxError
       end).

(** [JSON.parse(s)]: the parsed value, or the [SyntaxError] it throws. *)
Definition JSON_parse (s : jsstring) : result value :=
  parse_text (2 * length s + 2) s.

End JS.

Import JS.


(** ** Express: the response object and what a handler call produces *)

Module Express.

(** The request as Express hands it to the middleware. Path, query and
    header values are strings at this boundary; the body went through
    [express.json()]. *)
Record ExpressReq := {
  method : jsstring;
  path : jsstring;
  query : gmap jsstring jsstring;
  headers : gmap jsstring jsstring;
  body : option value
}.

(** What the code writes on [res]: the status code, and the value a
    completed [res.json] was given ([None] while nothing was sent). For
    the statuses that carry no body (1xx, 204, 205, 304) Express sends the
    head only. *)
Record ExpressRes := {
  statusCode : Z;
  sent : option value
}.

Definition fresh : ExpressRes := {| statusCode := 200; sent := None |}.

(** Anything a handler can throw or reject with. *)
Inductive fault :=
| TypeError (msg : jsstring)
| RangeError (msg : jsstring)
| Thrown (v : value).

(** What a handler hands back: the [res] object itself ([return
    res.status(..).json(..)]), some other value, or nothing. *)
Inductive retval :=
| RetRes
| RetVal (v : value)
| RetUndefined.

Inductive promise :=
| Fulfilled (v : retval)
| Rejected (e : fault).

(** How a call of a handler completes: it returns a plain value, returns a
    promise, or throws. *)
Inductive completion :=
| Return (v : retval)
| ReturnPromise (p : promise)
| Throw (e : fault).

(** The promise of an [async] function whose body completes with [c]:
    a throw rejects it, a returned promise is adopted. *)
Definition async (c : completion) : promise :=
  match c with
  | Return v => Fulfilled v
  | ReturnPromise p => p
  | Throw e => Rejected e
  end.

(** A call of an [async] function: whatever its body did to [res] and
    however it completed, the caller gets a promise. *)
Definition async_call (r : ExpressRes * completion) : ExpressRes * completion :=
  (fst r, ReturnPromise (async (snd r))).

(** [res.status(code)] stores the code (Express 4) and returns [res]. *)
Definition status (code : Z) (res : ExpressRes) : ExpressRes :=
  {| statusCode := code; sent := sent res |}.

(** The status codes the HTTP layer writes: 100 to 999. *)
Definition valid_status (code : Z) : bool := ((100 <=? code) && (code <=? 999))%Z.

(** [res.json(body)] writes the head and the body and returns [res]. With
    a status code outside 100..999 writing the head throws a RangeError
    and nothing is sent. *)
Definition json (b : value) (res : ExpressRes) : ExpressRes * completion :=
  if valid_status (statusCode res)
  then ({| statusCode := statusCode res; sent := Some b |}, Return RetRes)
  else (res, Throw (RangeError (str "Invalid status code"))).

(** The argument [next] is called with. *)
Inductive next_call :=
| Next
| NextError (e : fault).

End Express.

Import Express.

(** ** The OpenAPI backend the application configures

    [app.ts] imports the backend as a package; its code is not under [src/].
    What the application relies on (operation index, request matcher, schema
    validator, mock synthesis and the dispatch in [handleRequest]) is
    modelled here from the design document, section by section. *)

Module Backend.

(** *** Data model (document, section 3) *)

(** Modelled from the spec: the four places a schema is declared for
    (section 4.4). *)
Inductive Location := LPath | LQuery | LHeader | LBody.

(** Modelled from the spec: the declared types of section 4.4 ("integer,
    boolean, etc."). *)
Inductive SchemaType := TString | TInteger | TNumber | TBoolean.

(** Modelled from the spec: one declared parameter or body property, with
    its declared type and optional named format (section 4.4). *)
Record FieldSchema := {
  fname : jsstring;
  frequired : bool;
  ftype : SchemaType;
  fformat : option jsstring
}.

(** Modelled from the spec: the OperationDescriptor of section 3. The
    package's type declarations are missing; [operationId], [method] and
    [path] are the fields [app.ts] reads. [examples] holds the example
    response payloads keyed by status code, [defaultStatus] the documented
    default. *)
Record OperationDescriptor := {
  operationId : option jsstring;
  method : jsstring;
  path : jsstring;
  pathParams : list FieldSchema;
  queryParams : list FieldSchema;
  headerParams : list FieldSchema;
  requestBody : option (list FieldSchema);
  examples : list (Z * value);
  defaultStatus : option Z
}.

(** Modelled from the spec: a violation names the schema and the field
    that failed, with a message (ValidationOutcome, section 3). *)
Record Violation := {
  location : Location;
  field : jsstring;
  message : jsstring
}.

(** Modelled from the spec: ValidationOutcome of section 3. *)
Inductive ValidationOutcome :=
| Valid
| Invalid (violations : list Violation).

(** Modelled from the spec: MatchResult of section 3. *)
Inductive MatchResult :=
| Matched (op : OperationDescriptor) (extractedPathParams : list (jsstring * jsstring))
| Unmatched
| AmbiguousMatch (candidates : list OperationDescriptor).

(** *** Operation index (section 4.2) *)

(** Modelled from the spec: a template segment is a literal or a
    named-parameter placeholder (section 4.2). *)
Inductive Segment :=
| Lit (s : jsstring)
| Param (name : jsstring).

(** Modelled from the spec: paths and templates are segmented on [/]
    (section 4.2). The path ["/users/me"] has the segments [""], ["users"]
    and ["me"]. *)
Fixpoint segments (p : jsstring) : list jsstring :=
  match p with
  | [] => [[]]
  | c :: r =>
      if c =? 47 then [] :: segments r
      else
        match segments r with
        | seg :: segs => (c :: seg) :: segs
        | [] => [[c]]
        end
  end.

(** Modelled from the spec: a placeholder is a segment of the form
    [{name}]. [placeholder_name] reads the name from what follows the
    opening brace. *)
Fixpoint placeholder_name (s : jsstring) : option jsstring :=
  match s with
  | [] => None
  | [c] => if c =? 125 then Some [] else None
  | c :: r =>
      match placeholder_name r with
      | Some n => Some (c :: n)
      | None => None
      end
  end.

Definition parse_segment (s : jsstring) : Segment :=
  match s with
  | c :: r =>
      if c =? 123 then
        match placeholder_name r with
        | Some n => Param n
        | None => Lit s
        end
      else Lit s
  | [] => Lit s
  end.

Definition template (p : jsstring) : list Segment := map parse_segment (segments p).

(** Modelled from the spec: the index is the segment-based structure of
    section 4.2, one entry per operation with its parsed template. *)
Record IndexEntry := {
  entry_method : jsstring;
  entry_template : list Segment;
  entry_op : OperationDescriptor
}.

Definition OperationIndex := list IndexEntry.

Definition entry_of (op : OperationDescriptor) : IndexEntry :=
  {| entry_method := method op;
     entry_template := template (path op);
     entry_op := op |}.

(** Modelled from the spec: [build] of section 4.2 with the invariant of
    section 3; a model in which two operations share a (method, path
    pattern) pair is rejected. *)
Definition build (model : list OperationDescriptor) : option OperationIndex :=
  if bool_decide (NoDup (map (fun op => (method op, path op)) model))
  then Some (map entry_of model)
  else None.

(** Modelled from the spec: a placeholder matches any segment, a literal
    only an equal one (section 4.2). *)
Definition segment_matches (seg : Segment) (s : jsstring) : bool :=
  match seg with
  | Lit l => str_eqb l s
  | Param _ => true
  end.

Fixpoint template_matches (t : list Segment) (segs : list jsstring) : bool :=
  match t, segs with
  | [], [] => true
  | seg :: t', s :: segs' => segment_matches seg s && template_matches t' segs'
  | _, _ => false
  end.

(** Modelled from the spec: [lookup] of section 4.2, the operations of the
    method whose template matches the concrete path. *)
Definition lookup (index : OperationIndex) (m : jsstring) (segs : list jsstring)
  : list IndexEntry :=
  List.filter
    (fun e => str_eqb (entry_method e) m && template_matches (entry_template e) segs)
    index.

(** Modelled from the spec: the precedence rule of section 4.2.
    [more_specific t1 t2]: at the first position where one template has a
    literal and the other a placeholder, [t1] has the literal. *)
Fixpoint more_specific (t1 t2 : list Segment) : bool :=
  match t1, t2 with
  | Lit _ :: _, Param _ :: _ => true
  | Param _ :: _, Lit _ :: _ => false
  | _ :: t1', _ :: t2' => more_specific t1' t2'
  | _, _ => false
  end.

(** Two segments of the same kind: two literals or two placeholders. *)
Definition same_kind (a b : Segment) : Prop :=
  match a, b with
  | Lit _, Lit _ => True
  | Param _, Param _ => True
  | _, _ => False
  end.

(** The candidates that no other candidate beats. *)
Definition winners (cands : list IndexEntry) : list IndexEntry :=
  List.filter
    (fun e => forallb (fun e' => negb (more_specific (entry_template e') (entry_template e))) cands)
    cands.

(** *** Request matcher (section 4.3) *)

(** Modelled from the spec: the parameter bindings collected for the
    placeholders of a template (section 4.3). *)
Fixpoint bindings (t : list Segment) (segs : list jsstring) : list (jsstring * jsstring) :=
  match t, segs with
  | Param x :: t', s :: segs' => (x, s) :: bindings t' segs'
  | Lit _ :: t', _ :: segs' => bindings t' segs'
  | _, _ => []
  end.

(** Modelled from the spec: [match] of section 4.3. No candidate is
    [Unmatched], one most specific candidate is [Matched] with the
    placeholder bindings, several equally specific ones are
    [AmbiguousMatch]. *)
Definition match_ (index : OperationIndex) (m p : jsstring) : MatchResult :=
  let segs := segments p in
  match winners (lookup index m segs) with
  | [] => Unmatched
  | [e] => Matched (entry_op e) (bindings (entry_template e) segs)
  | es => AmbiguousMatch (map entry_op es)
  end.

(** *** Schema validator (section 4.4) *)

(** Modelled from the spec: the table of format predicates by name
    (section 4.4); [customizeAjv] of [app.ts] fills it. *)
Abbreviation Formats := (gmap jsstring (jsstring -> bool)).

Definition all_locations : list Location := [LPath; LQuery; LHeader; LBody].

Definition all_digits (s : jsstring) : bool :=
  match digits1 s with
  | Some (_, []) => true
  | _ => false
  end.

Definition is_integer_literal (s : jsstring) : bool :=
  match s with
  | c :: r => if c =? 45 then all_digits r else all_digits s
  | [] => false
  end.

Definition is_number_literal (s : jsstring) : bool :=
  match lex_number s with
  | Some (_, []) => true
  | _ => false
  end.

(** Modelled from the spec: the coercion policy of section 4.4. A value
    that arrived as a string is read at the declared type. *)
Definition coerce (t : SchemaType) (raw : jsstring) : option value :=
  match t with
  | TString => Some (JString raw)
  | TInteger => if is_integer_literal raw then Some (JNumber raw) else None
  | TNumber => if is_number_literal raw then Some (JNumber raw) else None
  | TBoolean =>
      if str_eqb raw (str "true") then Some (JBool true)
      else if str_eqb raw (str "false") then Some (JBool false)
      else None
  end.

(** Modelled from the spec: the type check of a body value, which is not
    coerced. *)
Definition has_type (t : SchemaType) (v : value) : bool :=
  match t, v with
  | TString, JString _ => true
  | TInteger, JNumber l => is_integer_literal l
  | TNumber, JNumber _ => true
  | TBoolean, JBool _ => true
  | _, _ => false
  end.

Definition violation (loc : Location) (f : FieldSchema) (msg : string) : Violation :=
  {| location := loc; field := fname f; message := str msg |}.

(** Modelled from the spec: pluggable formats of section 4.4. A registered
    format predicate is applied to string data; a format name nobody
    registered constrains nothing. *)
Definition check_format (formats : Formats) (loc : Location) (f : FieldSchema) (v : value)
  : list Violation :=
  match v, fformat f with
  | JString s, Some n =>
      match (formats !! n : option (jsstring -> bool)) with
      | Some accepts => if accepts s then [] else [violation loc f "format"]
      | None => []
      end
  | _, _ => []
  end.

(** Modelled from the spec: one declared parameter against the string the
    request carries for it, if any. *)
Definition check_param (formats : Formats) (loc : Location) (f : FieldSchema)
  (raw : option jsstring) : list Violation :=
  match raw with
  | None => if frequired f then [violation loc f "required"] else []
  | Some s =>
      match coerce (ftype f) s with
      | Some v => check_format formats loc f v
      | None => [violation loc f "type"]
      end
  end.

(** [o[k]] on a parsed object: with a repeated key the last member counts. *)
Fixpoint get_member (k : jsstring) (members : list (jsstring * value)) : option value :=
  match members with
  | [] => None
  | (k', v) :: rest =>
      match get_member k rest with
      | Some w => Some w
      | None => if str_eqb k' k then Some v else None
      end
  end.

(** Modelled from the spec: one declared body property against the
    member of the body, if any. *)
Definition check_property (formats : Formats) (f : FieldSchema) (v : option value)
  : list Violation :=
  match v with
  | None => if frequired f then [violation LBody f "required"] else []
  | Some v =>
      if has_type (ftype f) v then check_format formats LBody f v
      else [violation LBody f "type"]
  end.

Definition declared_name (decls : list FieldSchema) (k : jsstring) : bool :=
  existsb (fun f => str_eqb (fname f) k) decls.

(** Modelled from the spec: the unknown-field policy of section 4.4. Body
    members no property declares are reported in strict mode only. *)
Definition unknown_fields (decls : list FieldSchema) (members : list (jsstring * value))
  : list Violation :=
  flat_map
    (fun '(k, _) =>
       if declared_name decls k then []
       else [{| location := LBody; field := k; message := str "unknown" |}])
    members.

(** Modelled from the spec: the body against the declared properties, in
    declaration order, then the unknown fields. *)
Definition check_body (strict : bool) (formats : Formats) (decls : list FieldSchema)
  (b : option value) : list Violation :=
  match b with
  | Some (JObject members) =>
      flat_map (fun f => check_property formats f (get_member (fname f) members)) decls
      ++ (if strict then unknown_fields decls members else [])
  | _ => [{| location := LBody; field := []; message := str "object" |}]
  end.

Fixpoint assoc (k : jsstring) (l : list (jsstring * jsstring)) : option jsstring :=
  match l with
  | [] => None
  | (k', v) :: rest => if str_eqb k' k then Some v else assoc k rest
  end.

(** Modelled from the spec: the violations of one location, each location
    checked on its own, in declaration order (section 4.4). *)
Definition check_location (strict : bool) (formats : Formats) (op : OperationDescriptor)
  (params : list (jsstring * jsstring)) (req : ExpressReq) (loc : Location)
  : list Violation :=
  match loc with
  | LPath =>
      flat_map (fun f => check_param formats LPath f (assoc (fname f) params)) (pathParams op)
  | LQuery =>
      flat_map (fun f => check_param formats LQuery f (query req !! fname f)) (queryParams op)
  | LHeader =>
      flat_map (fun f => check_param formats LHeader f (headers req !! fname f))
        (headerParams op)
  | LBody =>
      match requestBody op with
      | Some decls => check_body strict formats decls (body req)
      | None => []
      end
  end.

(** The violations found when the locations are checked in [order]. *)
Definition check_in_order (order : list Location) (strict : bool) (formats : Formats)
  (op : OperationDescriptor) (params : list (jsstring * jsstring)) (req : ExpressReq)
  : list Violation :=
  flat_map (check_location strict formats op params req) order.

Definition outcome_of (vs : list Violation) : ValidationOutcome :=
  match vs with
  | [] => Valid
  | _ :: _ => Invalid vs
  end.

(** Modelled from the spec: [validate] of section 4.4. The package's
    validator is missing; each location is checked on its own and the
    violations are reported path first, then query, headers and body. *)
Definition validate (strict : bool) (formats : Formats) (op : OperationDescriptor)
  (params : list (jsstring * jsstring)) (req : ExpressReq) : ValidationOutcome :=
  outcome_of (check_in_order all_locations strict formats op params req).



(** Modelled from the spec: a violation as the object that is sent to the
    client, with its location, field and message. *)
Definition errorObject (v : Violation) : value :=
  JObject
    [(str "location",
      JString (match location v with
               | LPath => str "path"
               | LQuery => str "query"
               | LHeader => str "header"
               | LBody => str "body"
               end));
     (str "field", JString (field v));
     (str "message", JString (message v))].

(** Modelled from the spec: [validation.errors], the violation list;
    [null] for a valid request. *)
Definition errors (v : ValidationOutcome) : value :=
  match v with
  | Valid => JNull
  | Invalid vs => JArray (map errorObject vs)
  end.

(** *** Mock synthesis (section 4.5) *)

(** Modelled from the spec: the part of the backend a handler reaches
    through [c.api]. The two bodies are fixed by the package and not by
    the document: what the 501 fallback sends, and what an ambiguous match
    sends (section 6 leaves both open). *)
Record Api := {
  operations : list OperationDescriptor;
  index : OperationIndex;
  strict : bool;
  formats : Formats;
  notImplementedBody : value;
  ambiguousBody : value
}.

(** The operation an operationId names: the first one that carries it. *)
Definition has_id (id : jsstring) (op : OperationDescriptor) : bool :=
  match operationId op with
  | Some i => str_eqb i id
  | None => false
  end.

Definition getOperation (api : Api) (id : jsstring) : option OperationDescriptor :=
  List.find (has_id id) (operations api).

Definition is_success (code : Z) : bool := ((200 <=? code) && (code <? 300))%Z.

(** Modelled from the spec: the lowest declared success status
    (section 4.5); success is 2xx. *)
Fixpoint lowest_success (exs : list (Z * value)) : option Z :=
  match exs with
  | [] => None
  | (code, _) :: rest =>
      if is_success code then
        match lowest_success rest with
        | Some m => Some (Z.min code m)
        | None => Some code
        end
      else lowest_success rest
  end.

(** Modelled from the spec: that status, or the documented default. *)
Definition selected_status (op : OperationDescriptor) : option Z :=
  match lowest_success (examples op) with
  | Some code => Some code
  | None => defaultStatus op
  end.

Fixpoint example_for (code : Z) (exs : list (Z * value)) : option value :=
  match exs with
  | [] => None
  | (c, ex) :: rest => if (c =? code)%Z then Some ex else example_for code rest
  end.

(** The status and example the mock of an operation is made of. *)
Definition select_example (op : OperationDescriptor) : option (Z * value) :=
  match selected_status op with
  | Some code =>
      match example_for code (examples op) with
      | Some ex => Some (code, ex)
      | None => None
      end
  | None => None
  end.

(** Modelled from the spec: mock synthesis of section 4.5 behind the
    package's [mockResponseForOperation], which is missing. The example of
    the lowest declared success status (or of the documented default) is
    returned as it is; without one the answer is 501 with the sentinel
    body. *)
Definition mockResponseForOperation (api : Api) (id : jsstring) : Z * value :=
  match getOperation api id with
  | Some op =>
      match select_example op with
      | Some (code, ex) => (code, ex)
      | None => (501%Z, notImplementedBody api)
      end
  | None => (501%Z, notImplementedBody api)
  end.

(** *** Resolver and dispatcher (sections 4.5 and 4.6) *)

(** Modelled from the spec: the context object every handler receives
    first. [app.ts] reads [c.operation.operationId], [c.validation.errors]
    and [c.api]; outside a match [operation] and [validation] are
    undefined. *)
Record Context := {
  api : Api;
  request : ExpressReq;
  operation : option OperationDescriptor;
  validation : option ValidationOutcome
}.

(** A handler is called with the context and the two Express arguments;
    it may write on [res] before it completes. *)
Abbreviation Handler := (Context -> ExpressReq -> ExpressRes -> ExpressRes * completion).

(** Modelled from the spec: the backend object. Its one table of handlers
    is the HandlerRegistry of section 3 from operationId to handler; the
    [handlers] option of the constructor and [api.register] both fill it,
    so it also holds the fallback handlers under their names. *)
Record OpenAPIBackend := {
  core : Api;
  registry : gmap jsstring Handler
}.

(** Modelled from the spec: [api.register({...})] adds handlers to the
    table; a new entry replaces an old one of the same name. *)
Definition register (hs : gmap jsstring Handler) (b : OpenAPIBackend) : OpenAPIBackend :=
  {| core := core b; registry := hs ∪ registry b |}.

Definition context (b : OpenAPIBackend) (req : ExpressReq)
  (op : option OperationDescriptor) (v : option ValidationOutcome) : Context :=
  {| api := core b; request := req; operation := op; validation := v |}.

(** Without a fallback handler of the name the backend has nothing to
    answer with and throws. *)
Definition no_handler : Handler :=
  fun c req res => (res, Throw (Thrown (JString (str "no handler registered")))).

(** The fallback handler registered under [name]. *)
Definition fallback (b : OpenAPIBackend) (name : string) : Handler :=
  default no_handler (registry b !! str name).

(** Modelled from the spec: [resolve] of section 4.5. A handler registered
    for the operation's id is called and its completion is the result;
    otherwise the not-implemented fallback produces the mock. *)
Definition resolve (b : OpenAPIBackend) (op : OperationDescriptor) (c : Context)
  (req : ExpressReq) (res : ExpressRes) : ExpressRes * completion :=
  match operationId op with
  | Some id =>
      match registry b !! id with
      | Some h => h c req res
      | None => fallback b "notImplemented" c req res
      end
  | None => fallback b "notImplemented" c req res
  end.

(** The matcher and the validator as the backend runs them on a request. *)
Definition route (b : OpenAPIBackend) (req : ExpressReq) : MatchResult :=
  match_ (index (core b)) (Express.method req) (Express.path req).

Definition check (b : OpenAPIBackend) (op : OperationDescriptor)
  (params : list (jsstring * jsstring)) (req : ExpressReq) : ValidationOutcome :=
  validate (strict (core b)) (formats (core b)) op params req.

(** Modelled from the spec: the per-request state machine of section 4.6
    with the status mapping of section 6. *)
Definition dispatch (b : OpenAPIBackend) (req : ExpressReq) (res : ExpressRes)
  : ExpressRes * completion :=
  match route b req with
  | Unmatched => fallback b "notFound" (context b req None None) req res
  | AmbiguousMatch _ => json (ambiguousBody (core b)) (status 500 res)
  | Matched op params =>
      match check b op params req with
      | Invalid vs =>
          fallback b "validationFail"
            (context b req (Some op) (Some (Invalid vs))) req res
      | Valid => resolve b op (context b req (Some op) (Some Valid)) req res
      end
  end.

(** Modelled from the spec: [handleRequest] is asynchronous, so whatever the
    selected handler does (return, promise, throw) settles its promise. *)
Definition handleRequest (b : OpenAPIBackend) (req : ExpressReq) (res : ExpressRes)
  : ExpressRes * promise :=
  let '(res', c) := dispatch b req res in (res', async c).

(** Modelled from the spec: [init] loads the document once; a document the
    index rejects prevents the backend from starting. *)
Definition init (b : OpenAPIBackend) : option OpenAPIBackend :=
  match build (operations (core b)) with
  | Some ix =>
      Some {| core := {| operations := operations (core b);
                         index := ix;
                         strict := strict (core b);
                         formats := formats (core b);
                         notImplementedBody := notImplementedBody (core b);
                         ambiguousBody := ambiguousBody (core b) |};
              registry := registry b |}
  | None => None
  end.

End Backend.

(** ** The application: [createApp] of [src/app.ts]

    The [console.log] lines, the logger, [express.json()], the static
    files and [setStartTime()] do not take part in what the handlers
    answer and are left out. *)

Module App.

Import Backend.

(** What [createApp] uses and [app.ts] does not define: the document that
    [SPEC_FILE] names (as loaded), the [heartbeat] handler of
    [./handlers/heartbeat], the formats of the [ajv-formats] package, the
    two formats given as regular expressions whose matching is not
    modelled, and the two bodies fixed inside the backend package.

    The ["hostname"] expression (line 73) has the [g] flag: its [test]
    starts at the expression's [lastIndex] and leaves a new one, so it is a
    function of that index; [hostname_lastIndex] is the value the index has
    when the request is validated. The ["datetime"] expression (line 87)
    has no such flag and is a predicate. *)
Record Env := {
  SPEC_FILE : list OperationDescriptor;
  heartbeat : Handler;
  addFormats : Formats -> Formats;
  hostname : nat -> jsstring -> bool * nat;
  hostname_lastIndex : nat;
  datetime : jsstring -> bool;
  sentinel501 : value;
  ambiguous500 : value
}.

(** [ajv.addFormat(name, format)] *)
Definition addFormat (name : jsstring) (accepts : jsstring -> bool) (ajv : Formats) : Formats :=
  <[name := accepts]> ajv.

(** The ["ObjectId"] format, [/^[a-f\d]{24}$/i]: 24 hexadecimal digits. *)
Definition ObjectId (x : jsstring) : bool :=
  (length x =? 24)%nat && forallb (fun c => bool_decide (is_Some (hex_digit c))) x.

(** The ["JSON"] format (lines 75-84):
    [try { return typeof JSON.parse(x) == "object" } catch { return false }] *)
Definition JSON_format (x : jsstring) : bool :=
  match JSON_parse x with
  | Ok v => str_eqb (typeof v) (str "object")
  | SyntaxError => false
  | OutOfFuel => false
  end.

(** [customizeAjv] (lines 54-90). The table holds predicates; for
    ["hostname"] it holds the test at the current [lastIndex], and the
    index the test leaves behind is not followed. *)
Definition customizeAjv (env : Env) (ajv : Formats) : Formats :=
  let ajv := addFormats env ajv in
  let ajv := addFormat (str "ObjectId") ObjectId ajv in
  let ajv :=
    addFormat (str "hostname") (fun x => fst (hostname env (hostname_lastIndex env) x)) ajv in
  let ajv := addFormat (str "JSON") JSON_format ajv in
  let ajv := addFormat (str "datetime (YYYY-MM-DDTHH:mm:ss.sssZ)") (datetime env) ajv in
  ajv.

(** Reading a property of [undefined] throws a TypeError. *)
Definition undefined_property (name : string) : completion :=
  Throw (TypeError (str name)).

(** [validationFail] (lines 92-95):
    [return res.status(400).json({ err: c.validation.errors })].
    [res.status(400)] has run when the argument of [json] is evaluated. *)
Definition validationFail : Handler :=
  fun c req res =>
    async_call
      match validation c with
      | Some v => json (JObject [(str "err", errors v)]) (status 400 res)
      | None => (status 400 res, undefined_property "errors")
      end.

(** [notFound] (lines 96-99):
    [return res.status(404).json({ err: "not found" })] *)
Definition notFound : Handler :=
  fun c req res =>
    async_call (json (JObject [(str "err", JString (str "not found"))]) (status 404 res)).

(** [x ? a : b] on an optional string: [undefined] and the empty string
    are falsy. *)
Definition truthy (x : option jsstring) : bool :=
  match x with
  | Some (_ :: _) => true
  | Some [] => false
  | None => false
  end.

(** [notImplemented] (lines 100-109): the mock of the operation when it has
    an operationId, otherwise status 500 with an empty object. *)
Definition notImplemented : Handler :=
  fun c req res =>
    async_call
      match operation c with
      | Some op =>
          let '(status_, mock) :=
            if truthy (operationId op)
            then mockResponseForOperation (api c) (default [] (operationId op))
            else (500%Z, JObject []) in
          json mock (status status_ res)
      | None => (res, undefined_property "operationId")
      end.

(** [new OpenAPIBackend({ definition, strict: false, customizeAjv,
    handlers })] (lines 51-111), before [init]. *)
Definition new_backend (env : Env) : OpenAPIBackend :=
  {| core := {| operations := SPEC_FILE env;
                index := [];
                strict := false;
                formats := customizeAjv env ∅;
                notImplementedBody := sentinel501 env;
                ambiguousBody := ambiguous500 env |};
     registry := <[str "validationFail" := validationFail]>
                   (<[str "notFound" := notFound]>
                      (<[str "notImplemented" := notImplemented]> ∅)) |}.

(** The backend [createApp] ends up with (lines 51-122): constructed,
    [Heartbeat] registered, initialised. [None] when [init] fails. *)
Definition createApp (env : Env) : option OpenAPIBackend :=
  init (register {[ str "Heartbeat" := heartbeat env ]} (new_backend env)).

(** The last middleware (lines 130-139):
    [api.handleRequest(req, req, res).then(() => next()).catch(e => next(e))] *)
Definition middleware (b : OpenAPIBackend) (req : ExpressReq) (res : ExpressRes)
  : ExpressRes * next_call :=
  let '(res', p) := handleRequest b req res in
  match p with
  | Fulfilled _ => (res', Next)
  | Rejected e => (res', NextError e)
  end.

End App.

(** ** A small document and environment used for the concrete checks *)

Module Sample.

Import Backend App.

Definition operation_ (id : option string) (m p : string) (exs : list (Z * value))
  : OperationDescriptor :=
  {| operationId := option_map str id;
     method := str m;
     path := str p;
     pathParams := [];
     queryParams := [];
     headerParams := [];
     requestBody := None;
     examples := exs;
     defaultStatus := None |}.

Definition member (k : string) (v : value) : jsstring * value := (str k, v).

Definition heartbeatExample : value := JObject [member "status" (JString (str "mock"))].

Definition Heartbeat : OperationDescriptor :=
  operation_ (Some "Heartbeat") "GET" "/heartbeat" [(200%Z, heartbeatExample)].

Definition usersMe : OperationDescriptor :=
  operation_ (Some "GetMe") "GET" "/users/me"
    [(200%Z, JObject [member "name" (JString (str "me"))])].

Definition usersById : OperationDescriptor :=
  {| operationId := Some (str "GetUser");
     method := str "GET";
     path := str "/users/{id}";
     pathParams := [{| fname := str "id"; frequired := true; ftype := TInteger;
                       fformat := None |}];
     queryParams := [{| fname := str "verbose"; frequired := false; ftype := TBoolean;
                        fformat := None |}];
     headerParams := [{| fname := str "x-trace"; frequired := true; ftype := TString;
                         fformat := None |}];
     requestBody := None;
     examples := [(404%Z, JObject []); (201%Z, JObject [member "id" (JNumber (str "7"))]);
                  (200%Z, JObject [member "id" (JNumber (str "1"))])];
     defaultStatus := None |}.

Definition createUser : OperationDescriptor :=
  {| operationId := Some (str "CreateUser");
     method := str "POST";
     path := str "/users";
     pathParams := [];
     queryParams := [];
     headerParams := [];
     requestBody := Some [{| fname := str "email"; frequired := true; ftype := TString;
                             fformat := None |};
                          {| fname := str "meta"; frequired := false; ftype := TString;
                             fformat := Some (str "JSON") |}];
     examples := [];
     defaultStatus := None |}.

(** An operation the document gives no operationId, with a 200 example. *)
Definition anonymous : OperationDescriptor :=
  operation_ None "GET" "/anonymous" [(200%Z, JObject [member "ok" (JBool true)])].

Definition document : list OperationDescriptor :=
  [Heartbeat; usersMe; usersById; createUser; anonymous].

(** A stand-in for [./handlers/heartbeat]: answers 200 with its own body. *)
Definition liveBody : value := JObject [member "status" (JString (str "live"))].

Definition heartbeat_ok : Handler :=
  fun c req res => async_call (json liveBody (status 200 res)).

(** A handler that fails after the request was validated. *)
Definition boom : fault := Thrown (JString (str "boom")).

Definition heartbeat_throws : Handler := fun c req res => (res, Throw boom).

Definition environment (h : Handler) : Env :=
  {| SPEC_FILE := document;
     heartbeat := h;
     addFormats := fun ajv => ajv;
     hostname := fun i _ => (true, i);
     hostname_lastIndex := 0;
     datetime := fun _ => true;
     sentinel501 := JObject [member "err" (JString (str "not implemented"))];
     ambiguous500 := JObject [member "err" (JString (str "ambiguous"))] |}.

Definition env : Env := environment heartbeat_ok.

(** The backend [createApp] builds in an environment. *)
Definition backend (e : Env) : OpenAPIBackend := default (new_backend e) (createApp e).

Definition request_ (m p : string) (b : option value) : ExpressReq :=
  {| Express.method := str m;
     Express.path := str p;
     query := ∅;
     headers := ∅;
     body := b |}.

(** A request to [GET /users/{id}] that fails in three locations. *)
Definition three_failures : ExpressReq :=
  {| Express.method := str "GET";
     Express.path := str "/users/abc";
     query := {[ str "verbose" := str "maybe" ]};
     headers := ∅;
     body := None |}.

End Sample.

(** ** Auxiliary definitions for the properties of the lexers *)

Module Trailing.

(** The outcome of a lexer when [w] is appended to its input and the
    lexer stops before [w]. *)
Definition carry {A} (w : jsstring) (o : option (A * jsstring)) : option (A * jsstring) :=
  match o with
  | Some (a, r) => Some (a, r ++ w)
  | None => None
  end.

Definition carry_result {A} (w : jsstring) (o : result (A * jsstring))
  : result (A * jsstring) :=
  match o with
  | Ok (a, r) => Ok (a, r ++ w)
  | SyntaxError => SyntaxError
  | OutOfFuel => OutOfFuel
  end.

End Trailing.

(** ** Another environment for the concrete checks *)

Module MoreSamples.

Import Backend App Sample.

(** The sample environment over another document. *)
Definition environment_with (doc : list OperationDescriptor) : Env :=
  {| SPEC_FILE := doc;
     heartbeat := heartbeat_ok;
     addFormats := fun ajv => ajv;
     hostname := fun i _ => (true, i);
     hostname_lastIndex := 0;
     datetime := fun _ => true;
     sentinel501 := sentinel501 env;
     ambiguous500 := ambiguous500 env |}.

(** Two operations that carry the same operationId. *)
Definition firstExample : value := JObject [member "from" (JString (str "first"))].

Definition secondExample : value := JObject [member "from" (JString (str "second"))].

Definition firstDup : OperationDescriptor :=
  operation_ (Some "Dup") "GET" "/first" [(200%Z, firstExample)].

Definition secondDup : OperationDescriptor :=
  operation_ (Some "Dup") "GET" "/second" [(200%Z, secondExample)].

(** An operation whose only example is a default documented under a
    number that is no HTTP status code. *)
Definition noStatus : OperationDescriptor :=
  {| operationId := Some (str "NoStatus");
     method := str "GET";
     path := str "/nostatus";
     pathParams := [];
     queryParams := [];
     headerParams := [];
     requestBody := None;
     examples := [(0%Z, JObject [member "ok" (JBool true)])];
     defaultStatus := Some 0%Z |}.

(** A literal and a templated path, and a third path that is literal
    earlier on. *)
Definition orgMe : OperationDescriptor :=
  operation_ (Some "OrgMe") "GET" "/orgs/{org}/members/me" [].

Definition orgMember : OperationDescriptor :=
  operation_ (Some "OrgMember") "GET" "/orgs/{orgId}/members/{id}" [].

Definition acmeMember : OperationDescriptor :=
  operation_ (Some "AcmeMember") "GET" "/orgs/acme/members/{id}" [].

(** A valid request to [GET /users/{id}]. *)
Definition traced : ExpressReq :=
  {| Express.method := str "GET";
     Express.path := str "/users/7";
     query := ∅;
     headers := {[ str "x-trace" := str "1" ]};
     body := None |}.

End MoreSamples.

(** * Properties *)

(** ** The JSON parser: progress and independence of the fuel *)

Module JSFacts.

Lemma skip_ws_length s : (length (skip_ws s) <= length s)%nat.
Proof.
  induction s as [|c r IH]; simpl; [lia|].
  destruct (is_ws c); simpl; lia.
Qed.

Lemma skip_ws_cons s c r : skip_ws s = c :: r -> (length r < length s)%nat.
Proof.
  intros H. pose proof (skip_ws_length s) as L. rewrite H in L. simpl in L. lia.
Qed.

Lemma lex_string_length_aux n :
  forall s cs r, (length s <= n)%nat -> lex_string s = Some (cs, r) -> (length r < length s)%nat.
Proof.
  induction n as [|n IH]; intros s cs r Hn H.
  { destruct s; [discriminate | simpl in Hn; lia]. }
  destruct s as [|c s]; simpl in H; [discriminate|]. simpl in Hn.
  destruct (c =? 34).
  { inversion H; subst; simpl; lia. }
  destruct (c =? 92).
  { destruct s as [|e r1]; [discriminate|].
    destruct (e =? 117).
    - destruct r1 as [|h1 [|h2 [|h3 [|h4 r2]]]]; try discriminate.
      destruct (hex4 h1 h2 h3 h4); [|discriminate].
      destruct (lex_string r2) as [[cs' rest]|] eqn:E; [|discriminate].
      inversion H; subst. apply IH in E; simpl in *; lia.
    - destruct (unescape e); [|discriminate].
      destruct (lex_string r1) as [[cs' rest]|] eqn:E; [|discriminate].
      inversion H; subst. apply IH in E; simpl in *; lia. }
  destruct (c <? 32); [discriminate|].
  destruct (lex_string s) as [[cs' rest]|] eqn:E; [|discriminate].
  inversion H; subst. apply IH in E; simpl in *; lia.
Qed.

Lemma lex_string_length s cs r :
  lex_string s = Some (cs, r) -> (length r < length s)%nat.
Proof. apply (lex_string_length_aux (length s)); lia. Qed.

Lemma digits_length s : (length (snd (digits s)) <= length s)%nat.
Proof.
  induction s as [|c r IH]; simpl; [lia|].
  destruct (is_digit c); simpl; [|lia].
  destruct (digits r); simpl in *; lia.
Qed.

Lemma digits1_length s ds r : digits1 s = Some (ds, r) -> (length r <= length s)%nat.
Proof.
  unfold digits1. pose proof (digits_length s) as L.
  destruct (digits s) as [[|d ds'] rest]; [discriminate|].
  intros H; inversion H; subst. exact L.
Qed.

Lemma lex_int_length s l r : lex_int s = Some (l, r) -> (length r < length s)%nat.
Proof.
  destruct s as [|c s]; simpl; [discriminate|].
  destruct (c =? 48).
  { intros H; inversion H; subst; lia. }
  destruct (is_digit c); [|discriminate].
  pose proof (digits_length s) as L. destruct (digits s) as [ds rest].
  intros H; inversion H; subst. simpl in L. lia.
Qed.

Lemma lex_frac_length s l r : lex_frac s = Some (l, r) -> (length r <= length s)%nat.
Proof.
  destruct s as [|c s]; simpl.
  { intros H; inversion H; subst; simpl; lia. }
  destruct (c =? 46).
  - destruct (digits1 s) as [[ds rest]|] eqn:E; [|discriminate].
    intros H; inversion H; subst. apply digits1_length in E. lia.
  - intros H; inversion H; subst; simpl; lia.
Qed.

Lemma lex_exp_length s l r : lex_exp s = Some (l, r) -> (length r <= length s)%nat.
Proof.
  destruct s as [|c s]; simpl.
  { intros H; inversion H; subst; simpl; lia. }
  destruct ((c =? 101) || (c =? 69)).
  - destruct s as [|sg r1]; [discriminate|].
    destruct ((sg =? 43) || (sg =? 45)).
    + destruct (digits1 r1) as [[ds rest]|] eqn:E; [|discriminate].
      intros H; inversion H; subst. apply digits1_length in E. simpl. lia.
    + destruct (digits1 (sg :: r1)) as [[ds rest]|] eqn:E; [|discriminate].
      intros H; inversion H; subst. apply digits1_length in E. simpl in *. lia.
  - intros H; inversion H; subst; simpl; lia.
Qed.

Lemma lex_unsigned_length s l r : lex_unsigned s = Some (l, r) -> (length r < length s)%nat.
Proof.
  unfold lex_unsigned.
  destruct (lex_int s) as [[i r1]|] eqn:E1; [|discriminate].
  destruct (lex_frac r1) as [[f r2]|] eqn:E2; [|discriminate].
  destruct (lex_exp r2) as [[e r3]|] eqn:E3; [|discriminate].
  intros H; inversion H; subst.
  apply lex_int_length in E1. apply lex_frac_length in E2. apply lex_exp_length in E3. lia.
Qed.

Lemma lex_number_length s l r : lex_number s = Some (l, r) -> (length r < length s)%nat.
Proof.
  destruct s as [|c s]; [discriminate|]. unfold lex_number.
  destruct (c =? 45).
  - destruct (lex_unsigned s) as [[l' rest]|] eqn:E; [|discriminate].
    intros H; inversion H; subst. apply lex_unsigned_length in E. simpl. lia.
  - apply lex_unsigned_length.
Qed.

Lemma strip_prefix_length p : forall s r, strip_prefix p s = Some r -> (length r <= length s)%nat.
Proof.
  induction p as [|a p IH]; intros s r H; simpl in H.
  { destruct s; inversion H; subst; lia. }
  destruct s as [|b s]; [discriminate|].
  destruct (a =? b); [|discriminate]. apply IH in H. simpl. lia.
Qed.

Lemma keyword_length k v s w r : keyword k v s = Ok (w, r) -> (length r <= length s)%nat.
Proof.
  unfold keyword. destruct (strip_prefix (str k) s) eqn:E; [|discriminate].
  intros H; inversion H; subst. eapply strip_prefix_length; eauto.
Qed.

Lemma keyword_fuel k v s : keyword k v s <> OutOfFuel.
Proof. unfold keyword. destruct (strip_prefix (str k) s); discriminate. Qed.

Lemma of_option_fuel {A} (o : option A) : of_option o <> OutOfFuel.
Proof. destruct o; discriminate. Qed.

Lemma bind_Ok {A B} (r : result A) (k : A -> result B) b :
  bind r k = Ok b -> exists a, r = Ok a /\ k a = Ok b.
Proof. destruct r; simpl; try discriminate. eauto. Qed.

Lemma bind_fuel {A B} (r : result A) (k : A -> result B) :
  r <> OutOfFuel -> (forall a, r = Ok a -> k a <> OutOfFuel) -> bind r k <> OutOfFuel.
Proof. destruct r; simpl; auto; discriminate. Qed.


(** Every successful sub-parse consumes at least one code unit. *)
Lemma parse_progress fuel :
  (forall s v r, parse_value fuel s = Ok (v, r) -> (length r < length s)%nat) /\
  (forall s acc l r, parse_elements fuel s acc = Ok (l, r) -> (length r < length s)%nat) /\
  (forall s acc l r, parse_members fuel s acc = Ok (l, r) -> (length r < length s)%nat).
Proof.
  induction fuel as [|n (IHv & IHe & IHm)].
  { repeat split; intros; discriminate. }
  repeat split.
  - intros s v r H. cbn [parse_value] in H.
    destruct (skip_ws s) as [|c t] eqn:Es; [discriminate|].
    apply skip_ws_cons in Es.
    destruct (c =? 123).
    { destruct (skip_ws t) as [|d t1] eqn:Et; [discriminate|]. apply skip_ws_cons in Et.
      destruct (d =? 125).
      - inversion H; subst. lia.
      - apply bind_Ok in H as ([ms rest] & Hm & Hk). inversion Hk; subst.
        apply IHm in Hm. lia. }
    destruct (c =? 91).
    { destruct (skip_ws t) as [|d t1] eqn:Et; [discriminate|]. apply skip_ws_cons in Et.
      destruct (d =? 93).
      - inversion H; subst. lia.
      - apply bind_Ok in H as ([vs rest] & Hm & Hk). inversion Hk; subst.
        apply IHe in Hm. lia. }
    destruct (c =? 34).
    { apply bind_Ok in H as ([cs rest] & Hm & Hk). inversion Hk; subst.
      destruct (lex_string t) as [[cs' rest']|] eqn:El; [|discriminate].
      inversion Hm; subst. apply lex_string_length in El. lia. }
    destruct (c =? 116). { apply keyword_length in H. lia. }
    destruct (c =? 102). { apply keyword_length in H. lia. }
    destruct (c =? 110). { apply keyword_length in H. lia. }
    apply bind_Ok in H as ([l rest] & Hm & Hk). inversion Hk; subst.
    destruct (lex_number (c :: t)) as [[l' rest']|] eqn:El; [|discriminate].
    inversion Hm; subst. apply lex_number_length in El. simpl in El. lia.
  - intros s acc l r H. cbn [parse_elements] in H.
    apply bind_Ok in H as ([v t] & Hv & Hk). apply IHv in Hv.
    destruct (skip_ws t) as [|d t1] eqn:Et; [discriminate|]. apply skip_ws_cons in Et.
    destruct (d =? 44). { apply IHe in Hk. lia. }
    destruct (d =? 93); [|discriminate]. inversion Hk; subst. lia.
  - intros s acc l r H. cbn [parse_members] in H.
    destruct (skip_ws s) as [|q t] eqn:Es; [discriminate|]. apply skip_ws_cons in Es.
    destruct (q =? 34); [|discriminate].
    apply bind_Ok in H as ([k t1] & Hs & Hk).
    destruct (lex_string t) as [[k' t1']|] eqn:El; [|discriminate].
    inversion Hs; subst. apply lex_string_length in El.
    destruct (skip_ws t1) as [|col t2] eqn:E1; [discriminate|]. apply skip_ws_cons in E1.
    destruct (col =? 58); [|discriminate].
    apply bind_Ok in Hk as ([v t3] & Hv & Hk). apply IHv in Hv.
    destruct (skip_ws t3) as [|d t4] eqn:E3; [discriminate|]. apply skip_ws_cons in E3.
    destruct (d =? 44). { apply IHm in Hk. lia. }
    destruct (d =? 125); [|discriminate]. inversion Hk; subst. lia.
Qed.

(** With fuel above twice the input length the parser never stops for
    lack of fuel. *)
Lemma parse_enough_fuel fuel :
  (forall s, (2 * length s < fuel)%nat -> parse_value fuel s <> OutOfFuel) /\
  (forall s acc, (2 * length s + 1 < fuel)%nat -> parse_elements fuel s acc <> OutOfFuel) /\
  (forall s acc, (2 * length s + 1 < fuel)%nat -> parse_members fuel s acc <> OutOfFuel).
Proof.
  induction fuel as [|n (IHv & IHe & IHm)].
  { repeat split; intros; lia. }
  destruct (parse_progress n) as (Pv & Pe & Pm).
  repeat split.
  - intros s Hs. cbn [parse_value].
    destruct (skip_ws s) as [|c t] eqn:Es; [discriminate|]. apply skip_ws_cons in Es.
    destruct (c =? 123).
    { destruct (skip_ws t) as [|d t1] eqn:Et; [discriminate|].
      destruct (d =? 125); [discriminate|].
      apply bind_fuel; [apply IHm; lia | intros [ms rest] _; discriminate]. }
    destruct (c =? 91).
    { destruct (skip_ws t) as [|d t1] eqn:Et; [discriminate|].
      destruct (d =? 93); [discriminate|].
      apply bind_fuel; [apply IHe; lia | intros [vs rest] _; discriminate]. }
    destruct (c =? 34).
    { apply bind_fuel; [apply of_option_fuel | intros [cs rest] _; discriminate]. }
    destruct (c =? 116); [apply keyword_fuel|].
    destruct (c =? 102); [apply keyword_fuel|].
    destruct (c =? 110); [apply keyword_fuel|].
    apply bind_fuel; [apply of_option_fuel | intros [cs rest] _; discriminate].
  - intros s acc Hs. cbn [parse_elements].
    apply bind_fuel; [apply IHv; lia|].
    intros [v t] Hv. apply Pv in Hv.
    destruct (skip_ws t) as [|d t1] eqn:Et; [discriminate|]. apply skip_ws_cons in Et.
    destruct (d =? 44); [apply IHe; lia|].
    destruct (d =? 93); discriminate.
  - intros s acc Hs. cbn [parse_members].
    destruct (skip_ws s) as [|q t] eqn:Es; [discriminate|]. apply skip_ws_cons in Es.
    destruct (q =? 34); [|discriminate].
    apply bind_fuel; [apply of_option_fuel|].
    intros [k t1] Hk.
    destruct (lex_string t) as [[k' t1']|] eqn:El; [|discriminate].
    inversion Hk; subst. apply lex_string_length in El.
    destruct (skip_ws t1) as [|col t2] eqn:E1; [discriminate|]. apply skip_ws_cons in E1.
    destruct (col =? 58); [|discriminate].
    apply bind_fuel; [apply IHv; lia|].
    intros [v t3] Hv. apply Pv in Hv.
    destruct (skip_ws t3) as [|d t4] eqn:E3; [discriminate|]. apply skip_ws_cons in E3.
    destruct (d =? 44); [apply IHm; lia|].
    destruct (d =? 125); discriminate.
Qed.

Lemma bind_not_fuel {A B} (r : result A) (k : A -> result B) :
  bind r k <> OutOfFuel -> r <> OutOfFuel.
Proof. destruct r; simpl; auto; discriminate. Qed.

(** Once the parser has an answer, more fuel does not change it. *)
Lemma parse_fuel_stable fuel :
  (forall s, parse_value fuel s <> OutOfFuel -> parse_value (S fuel) s = parse_value fuel s) /\
  (forall s acc, parse_elements fuel s acc <> OutOfFuel ->
                 parse_elements (S fuel) s acc = parse_elements fuel s acc) /\
  (forall s acc, parse_members fuel s acc <> OutOfFuel ->
                 parse_members (S fuel) s acc = parse_members fuel s acc).
Proof.
  induction fuel as [|n (IHv & IHe & IHm)].
  { repeat split; intros; exfalso; auto. }
  repeat split.
  - intros s H. cbn [parse_value] in *.
    destruct (skip_ws s) as [|c t]; [reflexivity|].
    destruct (c =? 123).
    { destruct (skip_ws t) as [|d t1]; [reflexivity|].
      destruct (d =? 125); [reflexivity|].
      apply bind_not_fuel in H. rewrite (IHm _ _ H). reflexivity. }
    destruct (c =? 91).
    { destruct (skip_ws t) as [|d t1]; [reflexivity|].
      destruct (d =? 93); [reflexivity|].
      apply bind_not_fuel in H. rewrite (IHe _ _ H). reflexivity. }
    reflexivity.
  - intros s acc H. cbn [parse_elements] in *.
    pose proof (bind_not_fuel _ _ H) as Hv. rewrite (IHv _ Hv).
    destruct (parse_value n s) as [[v t]| |]; simpl in *; try reflexivity.
    destruct (skip_ws t) as [|d t1]; [reflexivity|].
    destruct (d =? 44); [apply IHe; exact H | reflexivity].
  - intros s acc H. cbn [parse_members] in *.
    destruct (skip_ws s) as [|q t]; [reflexivity|].
    destruct (q =? 34); [|reflexivity].
    destruct (of_option (lex_string t)) as [[k t1]| |]; simpl in *; try reflexivity.
    destruct (skip_ws t1) as [|col t2]; [reflexivity|].
    destruct (col =? 58); [|reflexivity].
    pose proof (bind_not_fuel _ _ H) as Hv. rewrite (IHv _ Hv).
    destruct (parse_value n t2) as [[v t3]| |]; simpl in *; try reflexivity.
    destruct (skip_ws t3) as [|d t4]; [reflexivity|].
    destruct (d =? 44); [apply IHm; exact H | reflexivity].
Qed.

Lemma parse_value_more_fuel k fuel s :
  parse_value fuel s <> OutOfFuel -> parse_value (k + fuel) s = parse_value fuel s.
Proof.
  intros H. induction k as [|k IH]; [reflexivity|].
  change (S k + fuel)%nat with (S (k + fuel)).
  rewrite (proj1 (parse_fuel_stable _)); rewrite IH; auto.
Qed.

(** The amount of fuel [JSON_parse] starts with is immaterial: any larger
    amount gives the same answer. *)
Lemma JSON_parse_fuel_irrelevant s fuel :
  (2 * length s + 2 <= fuel)%nat -> parse_text fuel s = JSON_parse s.
Proof.
  intros H. unfold JSON_parse, parse_text.
  replace fuel with ((fuel - (2 * length s + 2)) + (2 * length s + 2))%nat by lia.
  rewrite parse_value_more_fuel; [reflexivity|].
  apply (proj1 (parse_enough_fuel _)). lia.
Qed.

(** [JSON.parse] always returns a value or throws. *)
Lemma JSON_parse_total s : JSON_parse s <> OutOfFuel.
Proof.
  unfold JSON_parse, parse_text.
  apply bind_fuel.
  - apply (proj1 (parse_enough_fuel _)). lia.
  - intros [v r] _. destruct (skip_ws r); discriminate.
Qed.

End JSFacts.

(** ** The ["JSON"] format *)

Module FormatFacts.

Import App JSFacts.

Lemma typeof_object v :
  typeof v = str "object" <->
  match v with
  | JNull | JArray _ | JObject _ => True
  | JBool _ | JNumber _ | JString _ => False
  end.
Proof. destruct v; simpl; split; intros H; try exact I; try discriminate; try contradiction; reflexivity. Qed.

(** C10. For every string [s] the ["JSON"] format accepts [s] exactly when
    [JSON.parse(s)] succeeds with a value whose [typeof] is ["object"]:
    objects, arrays and [null] are accepted; numbers, strings, booleans
    and texts that do not parse are rejected. [JSON.parse] itself always
    returns a value or throws. *)
Theorem JSON_format_accepts (s : jsstring) :
  (JSON_format s = true <-> exists v, JSON_parse s = Ok v /\ typeof v = str "object")
  /\ JSON_format s =
     match JSON_parse s with
     | Ok JNull | Ok (JArray _) | Ok (JObject _) => true
     | Ok (JBool _) | Ok (JNumber _) | Ok (JString _) => false
     | SyntaxError | OutOfFuel => false
     end
  /\ JSON_parse s <> OutOfFuel.
Proof.
  split; [|split].
  - unfold JSON_format. destruct (JSON_parse s) as [v| |].
    + unfold str_eqb. rewrite bool_decide_eq_true. split.
      * intros H. exists v. auto.
      * intros (w & Hw & Ht). inversion Hw; subst. exact Ht.
    + split; [discriminate | intros (w & Hw & _); discriminate].
    + split; [discriminate | intros (w & Hw & _); discriminate].
  - unfold JSON_format. destruct (JSON_parse s) as [[]| |]; reflexivity.
  - apply JSON_parse_total.
Qed.

(** The cases the format is meant to tell apart, on concrete texts. *)
Example JSON_format_samples :
  JSON_format (str "{}") = true /\
  JSON_format (str " [1, 2.5e3, [true]] ") = true /\
  JSON_format (str "null") = true /\
  JSON_format (34 :: str "a" ++ [34; 58] ++ str "1") = false /\
  JSON_format (str "{" ++ [34] ++ str "k" ++ [34] ++ str ": {" ++ [34; 92; 117] ++ str "00e9" ++ [34] ++ str ":null}}") = true /\
  JSON_format (str "42") = false /\
  JSON_format (34 :: str "text" ++ [34]) = false /\
  JSON_format (str "true") = false /\
  JSON_format (str "{") = false /\
  JSON_format (str "[1,]") = false /\
  JSON_format (str "") = false /\
  JSON_format (str "undefined") = false.
Proof. vm_compute. repeat split. Qed.

End FormatFacts.

(** ** What [createApp] builds *)

Module AppFacts.

Import Backend App.

Lemma createApp_inv env b :
  createApp env = Some b ->
  registry b = {[ str "Heartbeat" := heartbeat env ]}
               ∪ <[str "validationFail" := validationFail]>
                   (<[str "notFound" := notFound]>
                      (<[str "notImplemented" := notImplemented]> ∅))
  /\ operations (core b) = SPEC_FILE env
  /\ build (SPEC_FILE env) = Some (index (core b))
  /\ strict (core b) = false
  /\ notImplementedBody (core b) = sentinel501 env.
Proof.
  unfold createApp, init. cbn.
  destruct (build (SPEC_FILE env)) as [ix|]; [|discriminate].
  intros H; inversion H; subst; cbn. repeat split.
Qed.

(** The table of handlers after [createApp]: the three fallbacks of the
    constructor and [Heartbeat]. *)
Lemma createApp_registry env b id :
  createApp env = Some b ->
  registry b !! id =
    if bool_decide (id = str "Heartbeat") then Some (heartbeat env)
    else if bool_decide (id = str "validationFail") then Some validationFail
    else if bool_decide (id = str "notFound") then Some notFound
    else if bool_decide (id = str "notImplemented") then Some notImplemented
    else None.
Proof.
  intros H. apply createApp_inv in H as (-> & _).
  case_bool_decide as E1.
  { subst. apply lookup_union_Some_l. apply lookup_singleton_eq. }
  rewrite lookup_union_r by (apply lookup_singleton_ne; congruence).
  case_bool_decide as E2; [subst; apply lookup_insert_eq|].
  rewrite lookup_insert_ne by congruence.
  case_bool_decide as E3; [subst; apply lookup_insert_eq|].
  rewrite lookup_insert_ne by congruence.
  case_bool_decide as E4; [subst; apply lookup_insert_eq|].
  rewrite lookup_insert_ne by congruence. apply lookup_empty.
Qed.

Lemma createApp_fallbacks env b :
  createApp env = Some b ->
  fallback b "validationFail" = validationFail
  /\ fallback b "notFound" = notFound
  /\ fallback b "notImplemented" = notImplemented.
Proof.
  intros H. unfold fallback. rewrite !(createApp_registry env b _ H).
  repeat split.
Qed.

Lemma handleRequest_dispatch b req res :
  handleRequest b req res = (fst (dispatch b req res), async (snd (dispatch b req res))).
Proof. unfold handleRequest. destruct (dispatch b req res); reflexivity. Qed.

Lemma middleware_fulfilled b req res res' v :
  handleRequest b req res = (res', Fulfilled v) -> middleware b req res = (res', Next).
Proof. unfold middleware. intros ->. reflexivity. Qed.

Lemma middleware_rejected b req res res' e :
  handleRequest b req res = (res', Rejected e) -> middleware b req res = (res', NextError e).
Proof. unfold middleware. intros ->. reflexivity. Qed.

(** No candidate, no match. *)
Lemma lookup_none index m segs :
  (forall e, In e index ->
             ~ (entry_method e = m /\ template_matches (entry_template e) segs = true)) ->
  lookup index m segs = [].
Proof.
  intros H. unfold lookup.
  induction index as [|e rest IH]; [reflexivity|]. simpl.
  destruct (str_eqb (entry_method e) m && template_matches (entry_template e) segs) eqn:E.
  - exfalso. apply andb_true_iff in E as [E1 E2].
    apply (H e); [left; reflexivity|]. split; [|exact E2].
    unfold str_eqb in E1. apply bool_decide_eq_true in E1. exact E1.
  - apply IH. intros e' He'. apply H. right. exact He'.
Qed.

Lemma build_index model index :
  build model = Some index -> index = map entry_of model /\ NoDup (map (fun op => (method op, path op)) model).
Proof.
  unfold build. case_bool_decide as E; [|discriminate].
  intros H; inversion H; subst. split; [reflexivity | exact E].
Qed.

Lemma unmatched_when_no_operation model index m p :
  build model = Some index ->
  (forall op, In op model ->
              ~ (method op = m /\ template_matches (template (path op)) (segments p) = true)) ->
  match_ index m p = Unmatched.
Proof.
  intros Hb H. apply build_index in Hb as [-> _].
  unfold match_. rewrite lookup_none; [reflexivity|].
  intros e He. apply in_map_iff in He as (op & <- & Hop). apply H. exact Hop.
Qed.

End AppFacts.

(** ** The fallback handlers and the dispatcher *)

Module DispatchFacts.

Import Backend App AppFacts Sample.

(** C2. For every request on which the validator returns Invalid, the
    outcome is a response with status 400 and body [{ err: violations }],
    where [violations] is the validator's list; the middleware then calls
    [next()] without an error. *)
Theorem validation_failure_is_400 (env : Env) (b : OpenAPIBackend)
  (req : ExpressReq) (res : ExpressRes) (op : OperationDescriptor)
  (params : list (jsstring * jsstring)) (vs : list Violation) :
  createApp env = Some b ->
  route b req = Matched op params ->
  check b op params req = Invalid vs ->
  handleRequest b req res
  = ({| statusCode := 400;
        sent := Some (JObject [(str "err", JArray (map errorObject vs))]) |},
     Fulfilled RetRes)
  /\ middleware b req res
     = ({| statusCode := 400;
           sent := Some (JObject [(str "err", JArray (map errorObject vs))]) |},
        Next).
Proof.
  intros Hb Hr Hc.
  destruct (createApp_fallbacks _ _ Hb) as (Hv & _ & _).
  assert (H : handleRequest b req res
              = ({| statusCode := 400;
                    sent := Some (JObject [(str "err", JArray (map errorObject vs))]) |},
                 Fulfilled RetRes)).
  { rewrite handleRequest_dispatch. unfold dispatch. rewrite Hr, Hc, Hv. reflexivity. }
  split; [exact H | eapply middleware_fulfilled; exact H].
Qed.

Lemma validation_failure_is_400_witness :
  handleRequest (backend env) (request_ "POST" "/users" (Some (JObject []))) fresh
  = ({| statusCode := 400;
        sent := Some (JObject
                        [(str "err",
                          JArray [JObject [(str "location", JString (str "body"));
                                           (str "field", JString (str "email"));
                                           (str "message", JString (str "required"))]])]) |},
     Fulfilled RetRes)
  /\ middleware (backend env) (request_ "POST" "/users" (Some (JObject []))) fresh
     = ({| statusCode := 400;
           sent := Some (JObject
                           [(str "err",
                             JArray [JObject [(str "location", JString (str "body"));
                                              (str "field", JString (str "email"));
                                              (str "message", JString (str "required"))]])]) |},
        Next).
Proof.
  apply (validation_failure_is_400 env (backend env)
           (request_ "POST" "/users" (Some (JObject []))) fresh createUser []
           [{| location := LBody; field := str "email"; message := str "required" |}]);
    vm_compute; reflexivity.
Defined.

(** C3. For every request whose method and path match no operation of the
    loaded document, the outcome is a response with status 404 and body
    exactly [{ err: "not found" }]. *)
Theorem unmatched_request_is_404 (env : Env) (b : OpenAPIBackend)
  (req : ExpressReq) (res : ExpressRes) :
  createApp env = Some b ->
  (forall op, In op (SPEC_FILE env) ->
     ~ (method op = Express.method req
        /\ template_matches (template (path op)) (segments (Express.path req)) = true)) ->
  route b req = Unmatched
  /\ handleRequest b req res
     = ({| statusCode := 404;
           sent := Some (JObject [(str "err", JString (str "not found"))]) |},
        Fulfilled RetRes)
  /\ middleware b req res
     = ({| statusCode := 404;
           sent := Some (JObject [(str "err", JString (str "not found"))]) |},
        Next).
Proof.
  intros Hb Hno.
  pose proof (createApp_inv _ _ Hb) as (_ & _ & Hix & _).
  destruct (createApp_fallbacks _ _ Hb) as (_ & Hnf & _).
  assert (Hr : route b req = Unmatched).
  { unfold route. eapply unmatched_when_no_operation; eauto. }
  assert (H : handleRequest b req res
              = ({| statusCode := 404;
                    sent := Some (JObject [(str "err", JString (str "not found"))]) |},
                 Fulfilled RetRes)).
  { rewrite handleRequest_dispatch. unfold dispatch. rewrite Hr, Hnf. reflexivity. }
  repeat split; [exact Hr | exact H | eapply middleware_fulfilled; exact H].
Qed.

Lemma unmatched_request_is_404_witness :
  route (backend env) (request_ "GET" "/unknown/path" None) = Unmatched
  /\ handleRequest (backend env) (request_ "GET" "/unknown/path" None) fresh
     = ({| statusCode := 404;
           sent := Some (JObject [(str "err", JString (str "not found"))]) |},
        Fulfilled RetRes)
  /\ middleware (backend env) (request_ "GET" "/unknown/path" None) fresh
     = ({| statusCode := 404;
           sent := Some (JObject [(str "err", JString (str "not found"))]) |},
        Next).
Proof.
  apply (unmatched_request_is_404 env (backend env) (request_ "GET" "/unknown/path" None) fresh).
  - vm_compute; reflexivity.
  - intros op Hop [Hm Ht].
    repeat (destruct Hop as [<- | Hop]; [vm_compute in Hm, Ht; discriminate|]).
    destruct Hop.
Defined.

(** C4. For every operation whose operationId has a handler in the
    registry, the resolver calls that handler with the context of the
    validated request and hands its completion back unchanged, whatever
    examples the operation declares; [createApp] registers [heartbeat]
    under ["Heartbeat"]. *)
Theorem registered_handler_verbatim (env : Env) (b : OpenAPIBackend)
  (req : ExpressReq) (res : ExpressRes) (op : OperationDescriptor)
  (params : list (jsstring * jsstring)) (id : jsstring) (h : Handler) :
  createApp env = Some b ->
  route b req = Matched op params ->
  check b op params req = Valid ->
  operationId op = Some id ->
  registry b !! id = Some h ->
  let c := context b req (Some op) (Some Valid) in
  dispatch b req res = h c req res
  /\ handleRequest b req res = (fst (h c req res), async (snd (h c req res)))
  /\ registry b !! str "Heartbeat" = Some (heartbeat env).
Proof.
  intros Hb Hr Hc Hid Hh c.
  assert (Hd : dispatch b req res = h c req res).
  { unfold dispatch, resolve. rewrite Hr, Hc, Hid, Hh. reflexivity. }
  repeat split.
  - exact Hd.
  - rewrite handleRequest_dispatch, Hd. reflexivity.
  - rewrite (createApp_registry env b _ Hb). rewrite bool_decide_eq_true_2; reflexivity.
Qed.

Lemma registered_handler_verbatim_witness :
  let req := request_ "GET" "/heartbeat" None in
  let c := context (backend env) req (Some Heartbeat) (Some Valid) in
  dispatch (backend env) req fresh = heartbeat_ok c req fresh
  /\ handleRequest (backend env) req fresh
     = (fst (heartbeat_ok c req fresh), async (snd (heartbeat_ok c req fresh)))
  /\ registry (backend env) !! str "Heartbeat" = Some (heartbeat env).
Proof.
  intros req c.
  apply (registered_handler_verbatim env (backend env) req fresh Heartbeat []
           (str "Heartbeat") heartbeat_ok);
    vm_compute; reflexivity.
Defined.

(** The handler's body is sent although the operation declares an example. *)
Example heartbeat_overrides_example :
  select_example Heartbeat = Some (200%Z, heartbeatExample)
  /\ middleware (backend env) (request_ "GET" "/heartbeat" None) fresh
     = ({| statusCode := 200; sent := Some liveBody |}, Next)
  /\ liveBody <> heartbeatExample.
Proof. repeat split; try (vm_compute; reflexivity). discriminate. Qed.

(** C8. When the handler of the matched operation throws, or returns a
    promise that is rejected, the promise of [handleRequest] is rejected
    with that fault and the middleware passes it on with [next(e)]; the
    response object is left as the handler left it, so none of the
    dispatcher's own answers is written. *)
Theorem handler_fault_propagates (env : Env) (b : OpenAPIBackend)
  (req : ExpressReq) (res : ExpressRes) (op : OperationDescriptor)
  (params : list (jsstring * jsstring)) (id : jsstring) (h : Handler) (e : fault) :
  createApp env = Some b ->
  route b req = Matched op params ->
  check b op params req = Valid ->
  operationId op = Some id ->
  registry b !! id = Some h ->
  let c := context b req (Some op) (Some Valid) in
  snd (h c req res) = Throw e \/ snd (h c req res) = ReturnPromise (Rejected e) ->
  handleRequest b req res = (fst (h c req res), Rejected e)
  /\ middleware b req res = (fst (h c req res), NextError e).
Proof.
  intros Hb Hr Hc Hid Hh c He.
  assert (H : handleRequest b req res = (fst (h c req res), Rejected e)).
  { rewrite handleRequest_dispatch. unfold dispatch, resolve.
    rewrite Hr, Hc, Hid, Hh. fold c.
    destruct He as [-> | ->]; reflexivity. }
  split; [exact H | eapply middleware_rejected; exact H].
Qed.

Lemma handler_fault_propagates_witness :
  let b := backend (environment heartbeat_throws) in
  let req := request_ "GET" "/heartbeat" None in
  handleRequest b req fresh = (fresh, Rejected boom)
  /\ middleware b req fresh = (fresh, NextError boom).
Proof.
  intros b req.
  apply (handler_fault_propagates (environment heartbeat_throws) b req fresh Heartbeat []
           (str "Heartbeat") heartbeat_throws boom);
    try (vm_compute; reflexivity).
  left. reflexivity.
Defined.

(** C9. When the not-implemented fallback is reached for an operation
    without operationId, the response has status 500 and the empty object
    as body, not the 501 answer. *)
Theorem notImplemented_without_operationId (c : Context) (req : ExpressReq)
  (res : ExpressRes) (op : OperationDescriptor) :
  operation c = Some op ->
  operationId op = None ->
  notImplemented c req res
  = ({| statusCode := 500; sent := Some (JObject []) |}, ReturnPromise (Fulfilled RetRes))
  /\ statusCode (fst (notImplemented c req res)) <> 501%Z.
Proof.
  intros Hop Hid. unfold notImplemented. rewrite Hop, Hid. simpl.
  split; [reflexivity | discriminate].
Qed.

Lemma notImplemented_without_operationId_witness :
  let req := request_ "GET" "/anonymous" None in
  let c := context (backend env) req (Some anonymous) (Some Valid) in
  notImplemented c req fresh
  = ({| statusCode := 500; sent := Some (JObject []) |}, ReturnPromise (Fulfilled RetRes))
  /\ statusCode (fst (notImplemented c req fresh)) <> 501%Z.
Proof.
  intros req c.
  apply (notImplemented_without_operationId c req fresh anonymous); reflexivity.
Defined.


End DispatchFacts.

(** ** Mock synthesis *)

Module MockFacts.

Import Backend App AppFacts Sample MoreSamples.

Lemma lowest_success_Some exs m :
  lowest_success exs = Some m ->
  is_success m = true
  /\ (exists e, In (m, e) exs)
  /\ (forall c e, In (c, e) exs -> is_success c = true -> (m <= c)%Z).
Proof.
  revert m. induction exs as [|[c0 e0] rest IH]; intros m H; simpl in H; [discriminate|].
  destruct (is_success c0) eqn:Ec.
  - destruct (lowest_success rest) as [m'|] eqn:El.
    + destruct (IH m' eq_refl) as (Hs & [e He] & Hmin).
      inversion H; subst. repeat split.
      * destruct (Z.min_spec c0 m') as [[_ ->] | [_ ->]]; assumption.
      * destruct (Z.min_spec c0 m') as [[_ ->] | [_ ->]];
          [exists e0; left; reflexivity | exists e; right; exact He].
      * intros c e1 [Hin | Hin] Hc.
        -- inversion Hin; subst. lia.
        -- specialize (Hmin c e1 Hin Hc). lia.
    + inversion H; subst. repeat split; [exact Ec | exists e0; left; reflexivity |].
      intros c e1 [Hin | Hin] Hc.
      * inversion Hin; subst. lia.
      * exfalso. clear -El Hin Hc.
        induction rest as [|[c1 e2] rest IH]; [destruct Hin|].
        simpl in El. destruct Hin as [Hin | Hin].
        -- inversion Hin; subst. rewrite Hc in El.
           destruct (lowest_success rest); discriminate.
        -- destruct (is_success c1); [destruct (lowest_success rest); discriminate|].
           apply IH; assumption.
  - destruct (IH m H) as (Hs & [e He] & Hmin). repeat split.
    + exact Hs.
    + exists e. right. exact He.
    + intros c e' [Hin | Hin] Hc.
      * inversion Hin; subst. congruence.
      * eapply Hmin; eauto.
Qed.

Lemma lowest_success_None exs :
  lowest_success exs = None -> forall c e, In (c, e) exs -> is_success c = false.
Proof.
  induction exs as [|[c0 e0] rest IH]; intros H c e Hin; [destruct Hin|].
  simpl in H. destruct (is_success c0) eqn:Ec.
  - destruct (lowest_success rest); discriminate.
  - destruct Hin as [Hin | Hin]; [inversion Hin; subst; exact Ec | eapply IH; eauto].
Qed.

Lemma example_for_In code exs ex : example_for code exs = Some ex -> In (code, ex) exs.
Proof.
  induction exs as [|[c e] rest IH]; simpl; [discriminate|].
  destruct (c =? code)%Z eqn:E.
  - intros H; inversion H; subst. apply Z.eqb_eq in E. subst. left. reflexivity.
  - intros H. right. apply IH. exact H.
Qed.

Lemma is_success_iff c : is_success c = true <-> (200 <= c < 300)%Z.
Proof. unfold is_success. rewrite andb_true_iff, Z.leb_le, Z.ltb_lt. reflexivity. Qed.

(** The lowest declared success status is what [lowest_success] finds. *)
Lemma lowest_success_is exs code ex :
  In (code, ex) exs ->
  (200 <= code < 300)%Z ->
  (forall c e, In (c, e) exs -> (200 <= c < 300)%Z -> (code <= c)%Z) ->
  lowest_success exs = Some code.
Proof.
  intros Hin Hs Hmin. destruct (lowest_success exs) as [m|] eqn:E.
  - apply lowest_success_Some in E as (Hm & [e He] & Hlow).
    apply is_success_iff in Hm.
    pose proof (Hmin m e He Hm). pose proof (Hlow code ex Hin (proj2 (is_success_iff code) Hs)).
    f_equal. lia.
  - pose proof (lowest_success_None _ E code ex Hin) as Hf.
    apply is_success_iff in Hs. congruence.
Qed.

Lemma lowest_success_none exs :
  (forall c e, In (c, e) exs -> ~ (200 <= c < 300)%Z) -> lowest_success exs = None.
Proof.
  intros H. destruct (lowest_success exs) as [m|] eqn:E; [|reflexivity].
  apply lowest_success_Some in E as (Hm & [e He] & _).
  apply is_success_iff in Hm. exfalso. eapply H; eauto.
Qed.

(** In its mock branch the fallback handler sends what
    [mockResponseForOperation] returns for the operationId. *)
Lemma notImplemented_mock c req res op id :
  operation c = Some op ->
  operationId op = Some id ->
  id <> [] ->
  notImplemented c req res
  = async_call (json (snd (mockResponseForOperation (api c) id))
                  (status (fst (mockResponseForOperation (api c) id)) res)).
Proof.
  intros Hop Hid Hne. unfold notImplemented. rewrite Hop, Hid.
  destruct id as [|c0 r]; [contradiction|]. simpl.
  destruct (mockResponseForOperation (api c) (c0 :: r)). reflexivity.
Qed.

Lemma getOperation_id a id op : getOperation a id = Some op -> operationId op = Some id.
Proof.
  unfold getOperation. intros H. apply find_some in H as [_ H].
  unfold has_id in H. destruct (operationId op) as [i|]; [|discriminate].
  apply bool_decide_eq_true in H. congruence.
Qed.

(** Where the mock branch is reached through the backend. *)
Lemma mock_branch_reached env b req res op params id :
  createApp env = Some b ->
  route b req = Matched op params ->
  check b op params req = Valid ->
  getOperation (core b) id = Some op ->
  id <> [] ->
  registry b !! id = None ->
  dispatch b req res
  = async_call (json (snd (mockResponseForOperation (core b) id))
                  (status (fst (mockResponseForOperation (core b) id)) res)).
Proof.
  intros Hb Hr Hc Hget Hne Hreg.
  destruct (createApp_fallbacks _ _ Hb) as (_ & _ & Hni).
  pose proof (getOperation_id _ _ _ Hget) as Hid.
  unfold dispatch, resolve. rewrite Hr, Hc, Hid, Hreg, Hni.
  rewrite (notImplemented_mock _ req res op id); [reflexivity|reflexivity|exact Hid|exact Hne].
Qed.

(** C1, as the code has it. Take a request that resolves without a
    registered handler, whose operation is the one its non-empty
    operationId names in the document. If the operation declares success
    statuses, the response has the lowest of them and its example as
    body, unchanged; if it declares none but documents a default that is
    an HTTP status code, the response has that status and its example;
    if it declares no example at all, the response is 501 with the
    sentinel body. *)
Theorem mock_fallback_selects_example (env : Env) (b : OpenAPIBackend)
  (req : ExpressReq) (res : ExpressRes) (op : OperationDescriptor)
  (params : list (jsstring * jsstring)) (id : jsstring) :
  createApp env = Some b ->
  route b req = Matched op params ->
  check b op params req = Valid ->
  getOperation (core b) id = Some op ->
  id <> [] ->
  registry b !! id = None ->
  (forall code ex,
     example_for code (examples op) = Some ex ->
     (200 <= code < 300)%Z ->
     (forall c e, In (c, e) (examples op) -> (200 <= c < 300)%Z -> (code <= c)%Z) ->
     handleRequest b req res
     = ({| statusCode := code; sent := Some ex |}, Fulfilled RetRes))
  /\ (forall d ex,
        (forall c e, In (c, e) (examples op) -> ~ (200 <= c < 300)%Z) ->
        defaultStatus op = Some d ->
        (100 <= d <= 999)%Z ->
        example_for d (examples op) = Some ex ->
        handleRequest b req res
        = ({| statusCode := d; sent := Some ex |}, Fulfilled RetRes))
  /\ (examples op = [] ->
      handleRequest b req res
      = ({| statusCode := 501; sent := Some (sentinel501 env) |}, Fulfilled RetRes)).
Proof.
  intros Hb Hr Hc Hget Hne Hreg.
  pose proof (createApp_inv _ _ Hb) as (_ & _ & _ & _ & Hs).
  pose proof (mock_branch_reached env b req res op params id Hb Hr Hc Hget Hne Hreg) as Hd.
  rewrite handleRequest_dispatch, Hd. unfold mockResponseForOperation. rewrite Hget.
  unfold select_example, selected_status.
  split; [|split].
  - intros code ex Hex Hcode Hmin.
    rewrite (lowest_success_is _ code ex (example_for_In _ _ _ Hex) Hcode Hmin), Hex.
    unfold async_call, json, status, valid_status. cbn.
    replace ((100 <=? code)%Z && (code <=? 999)%Z) with true
      by (symmetry; apply andb_true_iff; rewrite Z.leb_le, Z.leb_le; lia).
    reflexivity.
  - intros d ex Hnone Hdef Hd' Hex.
    rewrite (lowest_success_none _ Hnone), Hdef, Hex.
    unfold async_call, json, status, valid_status. cbn.
    replace ((100 <=? d)%Z && (d <=? 999)%Z) with true
      by (symmetry; apply andb_true_iff; rewrite Z.leb_le, Z.leb_le; lia).
    reflexivity.
  - intros Hex. rewrite Hex. cbn. rewrite Hs.
    destruct (defaultStatus op); reflexivity.
Qed.

(** [GET /users/7] has no handler; the operation declares examples for 404,
    201 and 200, in this order, and the answer is the one for 200. *)
Lemma mock_fallback_selects_example_witness :
  handleRequest (backend env) traced fresh
  = ({| statusCode := 200; sent := Some (JObject [member "id" (JNumber (str "1"))]) |},
     Fulfilled RetRes).
Proof.
  apply (proj1 (mock_fallback_selects_example env (backend env) traced fresh usersById
                  [(str "id", str "7")] (str "GetUser")
                  eq_refl eq_refl eq_refl eq_refl ltac:(discriminate) eq_refl)
           200%Z (JObject [member "id" (JNumber (str "1"))])).
  - reflexivity.
  - lia.
  - intros c e [H | [H | [H | []]]] Hc; inversion H; subst; lia.
Defined.

(** An operation without examples is answered with the 501 sentinel. *)
Example mock_fallback_no_example :
  middleware (backend env)
    (request_ "POST" "/users" (Some (JObject [member "email" (JString (str "a@b.c"))])))
    fresh
  = ({| statusCode := 501; sent := Some (sentinel501 env) |}, Next).
Proof. vm_compute. reflexivity. Qed.

(** C1 as stated fails in two ways. [GET /second] resolves without a
    handler and its operation declares a 200 example, but the operationId
    [Dup] is looked up in the document and names [GET /first], whose
    example is sent. [GET /nostatus] resolves without a handler and its
    operation declares an example under its documented default, but the
    default is no HTTP status code: nothing is sent and the middleware
    passes a RangeError on. *)
Lemma mock_fallback_counterexample :
  (createApp (environment_with [firstDup; secondDup])
   = Some (backend (environment_with [firstDup; secondDup]))
   /\ route (backend (environment_with [firstDup; secondDup])) (request_ "GET" "/second" None)
      = Matched secondDup []
   /\ check (backend (environment_with [firstDup; secondDup])) secondDup []
        (request_ "GET" "/second" None) = Valid
   /\ registry (backend (environment_with [firstDup; secondDup])) !! str "Dup" = None
   /\ examples secondDup = [(200%Z, secondExample)]
   /\ handleRequest (backend (environment_with [firstDup; secondDup]))
        (request_ "GET" "/second" None) fresh
      = ({| statusCode := 200; sent := Some firstExample |}, Fulfilled RetRes)
   /\ firstExample <> secondExample)
  /\ (createApp (environment_with [noStatus]) = Some (backend (environment_with [noStatus]))
      /\ route (backend (environment_with [noStatus])) (request_ "GET" "/nostatus" None)
         = Matched noStatus []
      /\ check (backend (environment_with [noStatus])) noStatus []
           (request_ "GET" "/nostatus" None) = Valid
      /\ registry (backend (environment_with [noStatus])) !! str "NoStatus" = None
      /\ defaultStatus noStatus = Some 0%Z
      /\ example_for 0 (examples noStatus) = Some (JObject [member "ok" (JBool true)])
      /\ sent (fst (middleware (backend (environment_with [noStatus]))
                      (request_ "GET" "/nostatus" None) fresh)) = None
      /\ exists msg,
           snd (middleware (backend (environment_with [noStatus]))
                  (request_ "GET" "/nostatus" None) fresh)
           = NextError (RangeError msg)).
Proof.
  repeat split; try (vm_compute; reflexivity).
  - discriminate.
  - eexists. vm_compute. reflexivity.
Qed.

End MockFacts.

(** ** The request matcher *)

Module MatchFacts.

Import Backend AppFacts Sample MoreSamples.

Lemma more_specific_irrefl t : more_specific t t = false.
Proof. induction t as [|[s|x] t IH]; simpl; auto. Qed.

Lemma more_specific_lit_param pre pre' l x suf suf' :
  Forall2 same_kind pre pre' ->
  more_specific (pre ++ Lit l :: suf) (pre' ++ Param x :: suf') = true.
Proof.
  induction 1 as [|a b pre pre' Hk _ IH]; simpl; [reflexivity|].
  destruct a, b; simpl in Hk; try contradiction; exact IH.
Qed.

Lemma more_specific_param_lit pre pre' l x suf suf' :
  Forall2 same_kind pre pre' ->
  more_specific (pre' ++ Param x :: suf') (pre ++ Lit l :: suf) = false.
Proof.
  induction 1 as [|a b pre pre' Hk _ IH]; simpl; [reflexivity|].
  destruct a, b; simpl in Hk; try contradiction; exact IH.
Qed.

Lemma filter_none {A} (f : A -> bool) (l : list A) :
  (forall x, In x l -> f x = false) -> List.filter f l = [].
Proof.
  induction l as [|y l IH]; intros H; [reflexivity|]. simpl.
  rewrite (H y) by (left; reflexivity). apply IH. intros x Hx. apply H. right. exact Hx.
Qed.

Lemma filter_unique {A} (f : A -> bool) (l : list A) (a : A) :
  NoDup l -> In a l -> f a = true -> (forall x, In x l -> f x = true -> x = a) ->
  List.filter f l = [a].
Proof.
  intros Hnd. induction Hnd as [|y l Hy Hnd IH]; intros Hin Hfa Huniq; [destruct Hin|].
  simpl. destruct (f y) eqn:Ey.
  - assert (y = a) as -> by (apply Huniq; [left; reflexivity | exact Ey]).
    f_equal. apply filter_none. intros z Hz.
    destruct (f z) eqn:Ez; [|reflexivity].
    exfalso. assert (z = a) by (apply Huniq; [right; exact Hz | exact Ez]). subst.
    apply Hy. apply list_elem_of_In. exact Hz.
  - destruct Hin as [-> | Hin]; [congruence|].
    apply IH; auto. intros z Hz. apply Huniq. right. exact Hz.
Qed.

Lemma entry_of_op e model : In e (map entry_of model) -> e = entry_of (entry_op e) /\ In (entry_op e) model.
Proof. intros H. apply in_map_iff in H as (op & <- & Hop). split; [reflexivity | exact Hop]. Qed.

Lemma NoDup_index model index : build model = Some index -> NoDup index.
Proof.
  intros H. apply build_index in H as [-> Hnd].
  apply NoDup_fmap_1 in Hnd.
  assert (Hinj : Inj eq eq entry_of).
  { intros a b Hab. apply (f_equal entry_op) in Hab. exact Hab. }
  apply (NoDup_fmap_2 entry_of). exact Hnd.
Qed.

Lemma lookup_In index m segs e :
  In e (lookup index m segs) <->
  In e index /\ entry_method e = m /\ template_matches (entry_template e) segs = true.
Proof.
  unfold lookup. rewrite filter_In, andb_true_iff. unfold str_eqb.
  rewrite bool_decide_eq_true. reflexivity.
Qed.

Lemma winners_In cands e :
  In e (winners cands) <->
  In e cands /\
  forall e', In e' cands -> more_specific (entry_template e') (entry_template e) = false.
Proof.
  unfold winners. rewrite filter_In, forallb_forall.
  split; intros [H1 H2]; split; auto; intros e' He'.
  - apply negb_true_iff. apply H2. exact He'.
  - apply negb_true_iff. apply H2. exact He'.
Qed.

Lemma more_specific_trans t1 : forall t2 t3,
  more_specific t1 t2 = true -> more_specific t2 t3 = true -> more_specific t1 t3 = true.
Proof.
  induction t1 as [|[a|a] t1 IH]; intros [|[b|b] t2] [|[c|c] t3]; simpl;
    try discriminate; try reflexivity; eauto.
Qed.

(** Among candidates there is always one that no other beats. *)
Lemma winners_nonempty cands : cands <> [] -> winners cands <> [].
Proof.
  intros Hne.
  assert (H : exists e, In e cands /\
            forall e', In e' cands -> more_specific (entry_template e') (entry_template e) = false).
  { induction cands as [|a rest IH]; [contradiction|].
    destruct rest as [|b rest'].
    - exists a. split; [left; reflexivity|].
      intros e' [<- | []]. apply more_specific_irrefl.
    - destruct IH as (e & He & Hmax); [discriminate|].
      destruct (more_specific (entry_template a) (entry_template e)) eqn:Ea.
      + exists a. split; [left; reflexivity|].
        intros e' [<- | He']; [apply more_specific_irrefl|].
        destruct (more_specific (entry_template e') (entry_template a)) eqn:E'; [|reflexivity].
        rewrite <- (Hmax e' He'). symmetry. eapply more_specific_trans; eauto.
      + exists e. split; [right; exact He|].
        intros e' [<- | He']; [exact Ea | apply Hmax; exact He']. }
  destruct H as (e & He & Hmax). intros Hw.
  assert (Hin : In e (winners cands)) by (apply winners_In; split; assumption).
  rewrite Hw in Hin. destruct Hin.
Qed.

(** The matcher answers [Unmatched] exactly when no operation of the
    method has a template the path instantiates. *)
Lemma unmatched_iff index m p :
  match_ index m p = Unmatched <-> lookup index m (segments p) = [].
Proof.
  unfold match_. split.
  - intros H. destruct (lookup index m (segments p)) as [|c cs] eqn:El; [reflexivity|].
    exfalso. assert (Hne : c :: cs <> []) by discriminate.
    apply winners_nonempty in Hne.
    destruct (winners (c :: cs)) as [|e [|e' es]]; [contradiction | discriminate | discriminate].
  - intros ->. reflexivity.
Qed.
Section LiteralAndPlaceholder.

Variables (model : list OperationDescriptor) (index : OperationIndex).
Variables (opL opT : OperationDescriptor).
Variables (preL sufL preT sufT : list Segment) (l x : jsstring).

Hypothesis Hbuild : build model = Some index.
Hypothesis HinL : In opL model.
Hypothesis HinT : In opT model.
Hypothesis Hmethod : method opL = method opT.
Hypothesis HtL : template (path opL) = preL ++ Lit l :: sufL.
Hypothesis HtT : template (path opT) = preT ++ Param x :: sufT.
Hypothesis Hkind : Forall2 same_kind preL preT.

Variable p : jsstring.

Lemma literal_candidate :
  template_matches (template (path opL)) (segments p) = true ->
  In (entry_of opL) (lookup index (method opL) (segments p)).
Proof.
  intros H. apply lookup_In. repeat split; [|exact H].
  apply build_index in Hbuild as [-> _]. apply in_map. exact HinL.
Qed.

Lemma templated_candidate :
  template_matches (template (path opT)) (segments p) = true ->
  In (entry_of opT) (lookup index (method opL) (segments p)).
Proof.
  intros H. apply lookup_In. repeat split; [|symmetry; exact Hmethod|exact H].
  apply build_index in Hbuild as [-> _]. apply in_map. exact HinT.
Qed.

Lemma templated_loses :
  template_matches (template (path opL)) (segments p) = true ->
  ~ In (entry_of opT) (winners (lookup index (method opL) (segments p))).
Proof.
  intros H Hw. apply winners_In in Hw as [_ Hw].
  specialize (Hw _ (literal_candidate H)). simpl in Hw.
  rewrite HtL, HtT, (more_specific_lit_param _ _ _ _ _ _ Hkind) in Hw. discriminate.
Qed.

Lemma winner_of_index e :
  In e (winners (lookup index (method opL) (segments p))) -> e = entry_of (entry_op e).
Proof.
  intros H. apply winners_In in H as [H _]. apply lookup_In in H as [H _].
  apply build_index in Hbuild as [-> _]. apply entry_of_op in H as [H _]. exact H.
Qed.

Lemma templated_never_chosen :
  template_matches (template (path opL)) (segments p) = true ->
  (forall params, match_ index (method opL) p <> Matched opT params)
  /\ (forall cands, match_ index (method opL) p = AmbiguousMatch cands -> ~ In opT cands).
Proof.
  intros H. pose proof (templated_loses H) as Hl.
  unfold match_.
  destruct (winners (lookup index (method opL) (segments p))) as [|e [|e' rest]] eqn:Ew.
  - split; [discriminate | discriminate].
  - split; [|discriminate]. intros params Heq. inversion Heq as [[Hop Hpar]].
    apply Hl. left.
    rewrite (winner_of_index e) by (rewrite Ew; left; reflexivity).
    rewrite Hop. reflexivity.
  - split; [discriminate|]. intros cands Heq. inversion Heq; subst cands. intros Hin.
    change (In opT (map entry_op (e :: e' :: rest))) in Hin.
    apply in_map_iff in Hin as (e0 & He0 & Hin0).
    apply Hl. rewrite <- He0.
    rewrite <- (winner_of_index e0) by (rewrite Ew; exact Hin0). exact Hin0.
Qed.

Hypothesis Honly :
  forall op, In op model -> method op = (method opL) ->
             template_matches (template (path op)) (segments p) = true -> op = opL \/ op = opT.

Lemma candidates_are_the_pair e :
  In e (lookup index (method opL) (segments p)) -> e = entry_of opL \/ e = entry_of opT.
Proof.
  intros H. apply lookup_In in H as (Hin & Hm & Ht).
  apply build_index in Hbuild as [-> _].
  apply entry_of_op in Hin as [He Hop]. rewrite He in Hm, Ht. simpl in Hm, Ht.
  destruct (Honly _ Hop Hm Ht) as [E | E]; rewrite He, E; auto.
Qed.

Lemma literal_chosen :
  template_matches (template (path opL)) (segments p) = true ->
  match_ index (method opL) p = Matched opL (bindings (template (path opL)) (segments p)).
Proof.
  intros H. unfold match_.
  assert (Hw : winners (lookup index (method opL) (segments p)) = [entry_of opL]).
  { apply filter_unique.
    - apply NoDup_ListNoDup. apply List.NoDup_filter. apply NoDup_ListNoDup.
      eapply NoDup_index; eauto.
    - apply literal_candidate. exact H.
    - apply forallb_forall. intros e' He'. apply negb_true_iff.
      destruct (candidates_are_the_pair _ He') as [-> | ->]; simpl.
      + apply more_specific_irrefl.
      + rewrite HtL, HtT. apply more_specific_param_lit. exact Hkind.
    - intros e He Hg.
      destruct (candidates_are_the_pair _ He) as [-> | ->]; [reflexivity|].
      exfalso. apply (templated_loses H). unfold winners. apply filter_In. split; assumption. }
  rewrite Hw. reflexivity.
Qed.

Lemma templated_chosen :
  template_matches (template (path opT)) (segments p) = true ->
  template_matches (template (path opL)) (segments p) = false ->
  match_ index (method opL) p = Matched opT (bindings (template (path opT)) (segments p)).
Proof.
  intros HT HL. unfold match_.
  assert (Hc : forall e, In e (lookup index (method opL) (segments p)) -> e = entry_of opT).
  { intros e He. destruct (candidates_are_the_pair _ He) as [-> | ->]; [|reflexivity].
    apply lookup_In in He as (_ & _ & Ht). simpl in Ht. congruence. }
  assert (Hw : winners (lookup index (method opL) (segments p)) = [entry_of opT]).
  { apply filter_unique.
    - apply NoDup_ListNoDup. apply List.NoDup_filter. apply NoDup_ListNoDup.
      eapply NoDup_index; eauto.
    - apply templated_candidate. exact HT.
    - apply forallb_forall. intros e' He'. apply negb_true_iff.
      rewrite (Hc _ He'). apply more_specific_irrefl.
    - intros e He _. apply Hc. exact He. }
  rewrite Hw. reflexivity.
Qed.

End LiteralAndPlaceholder.

(** C5, as the matcher has it. Take two registered templates of one
    method that have segments of the same kind up to a position where the
    first has a literal and the second a placeholder. For every request
    path that instantiates the literal template the templated operation
    is never the answer, alone or among ambiguous candidates. When no
    third registered operation of the method matches the path, the answer
    is the literal operation for a path that instantiates the literal
    template, and the templated operation for any other path that
    instantiates the templated one. *)
Theorem literal_segment_wins (model : list OperationDescriptor) (index : OperationIndex)
  (opL opT : OperationDescriptor) (preL sufL preT sufT : list Segment) (l x : jsstring)
  (p : jsstring) :
  build model = Some index ->
  In opL model ->
  In opT model ->
  method opL = method opT ->
  template (path opL) = preL ++ Lit l :: sufL ->
  template (path opT) = preT ++ Param x :: sufT ->
  Forall2 same_kind preL preT ->
  (template_matches (template (path opL)) (segments p) = true ->
     (forall params, match_ index (method opL) p <> Matched opT params)
     /\ (forall cands, match_ index (method opL) p = AmbiguousMatch cands -> ~ In opT cands))
  /\ ((forall op, In op model -> method op = method opL ->
                  template_matches (template (path op)) (segments p) = true ->
                  op = opL \/ op = opT) ->
      (template_matches (template (path opL)) (segments p) = true ->
         match_ index (method opL) p
         = Matched opL (bindings (template (path opL)) (segments p)))
      /\ (template_matches (template (path opT)) (segments p) = true ->
          template_matches (template (path opL)) (segments p) = false ->
          match_ index (method opL) p
          = Matched opT (bindings (template (path opT)) (segments p)))).
Proof.
  intros Hb HL HT Hm HtL HtT Hk. split; [|intros Honly; split].
  - eapply templated_never_chosen; eauto.
  - eapply literal_chosen; eauto.
  - eapply templated_chosen; eauto.
Qed.

Lemma only_the_org_pair (p : jsstring) :
  forall op, In op [orgMe; orgMember] -> method op = method orgMe ->
             template_matches (template (path op)) (segments p) = true ->
             op = orgMe \/ op = orgMember.
Proof. intros op [<- | [<- | []]] _ _; auto. Qed.

(** [/orgs/{org}/members/me] and [/orgs/{orgId}/members/{id}]: the
    placeholders before the position have different names. *)
Lemma literal_segment_wins_witness :
  match_ (map entry_of [orgMe; orgMember]) (str "GET") (str "/orgs/acme/members/me")
  = Matched orgMe [(str "org", str "acme")]
  /\ match_ (map entry_of [orgMe; orgMember]) (str "GET") (str "/orgs/acme/members/42")
     = Matched orgMember [(str "orgId", str "acme"); (str "id", str "42")].
Proof.
  split.
  - apply (proj1 (proj2 (literal_segment_wins [orgMe; orgMember]
                           (map entry_of [orgMe; orgMember]) orgMe orgMember
                           [Lit []; Lit (str "orgs"); Param (str "org"); Lit (str "members")] []
                           [Lit []; Lit (str "orgs"); Param (str "orgId"); Lit (str "members")] []
                           (str "me") (str "id") (str "/orgs/acme/members/me")
                           eq_refl (or_introl eq_refl) (or_intror (or_introl eq_refl))
                           eq_refl eq_refl eq_refl
                           ltac:(repeat constructor))
                   (only_the_org_pair _))).
    reflexivity.
  - apply (proj2 (proj2 (literal_segment_wins [orgMe; orgMember]
                           (map entry_of [orgMe; orgMember]) orgMe orgMember
                           [Lit []; Lit (str "orgs"); Param (str "org"); Lit (str "members")] []
                           [Lit []; Lit (str "orgs"); Param (str "orgId"); Lit (str "members")] []
                           (str "me") (str "id") (str "/orgs/acme/members/42")
                           eq_refl (or_introl eq_refl) (or_intror (or_introl eq_refl))
                           eq_refl eq_refl eq_refl
                           ltac:(repeat constructor))
                   (only_the_org_pair _))); reflexivity.
Defined.

(** C5 as stated fails when a third template matches the path. The pair
    [/orgs/{org}/members/me], [/orgs/{orgId}/members/{id}] is registered
    and [/orgs/acme/members/me] instantiates the literal template, but
    the third template [/orgs/acme/members/{id}] is literal at an earlier
    position and its operation is the answer. *)
Lemma literal_segment_counterexample :
  build [orgMe; orgMember; acmeMember] = Some (map entry_of [orgMe; orgMember; acmeMember])
  /\ template_matches (template (path orgMe)) (segments (str "/orgs/acme/members/me")) = true
  /\ match_ (map entry_of [orgMe; orgMember; acmeMember]) (str "GET")
       (str "/orgs/acme/members/me")
     = Matched acmeMember [(str "id", str "me")]
  /\ acmeMember <> orgMe.
Proof. repeat split; try (vm_compute; reflexivity). discriminate. Qed.

(** A third template of the same specificity as the templated one makes
    the other instantiations ambiguous. *)
Example third_template_is_ambiguous :
  let twin := operation_ (Some "GetUserByName") "GET" "/users/{name}" [] in
  let index := map entry_of (twin :: document) in
  build (twin :: document) = Some index
  /\ match_ index (str "GET") (str "/users/42") = AmbiguousMatch [twin; usersById]
  /\ match_ index (str "GET") (str "/users/me") = Matched usersMe [].
Proof. repeat split; vm_compute; reflexivity. Qed.

End MatchFacts.

(** ** The schema validator *)

Module ValidatorFacts.

Import Backend Sample.
















(** A request that fails in three locations, and the same locations checked
    in the opposite order. *)
Example three_failures_reported :
  validate false ∅ usersById [(str "id", str "abc")] three_failures
  = Invalid [{| location := LPath; field := str "id"; message := str "type" |};
             {| location := LQuery; field := str "verbose"; message := str "type" |};
             {| location := LHeader; field := str "x-trace"; message := str "required" |}]
  /\ check_in_order [LBody; LHeader; LQuery; LPath] false ∅ usersById
       [(str "id", str "abc")] three_failures
     = [{| location := LHeader; field := str "x-trace"; message := str "required" |};
        {| location := LQuery; field := str "verbose"; message := str "type" |};
        {| location := LPath; field := str "id"; message := str "type" |}].
Proof. split; vm_compute; reflexivity. Qed.

End ValidatorFacts.

(** ** More on the ["JSON"] format: white space and first character *)

Module BlankFacts.

Import App JSFacts.

Lemma is_ws_cases c : is_ws c = true -> c = 9 \/ c = 10 \/ c = 13 \/ c = 32.
Proof.
  unfold is_ws. rewrite !orb_true_iff, !N.eqb_eq. tauto.
Qed.

Lemma skip_ws_blank w : forallb is_ws w = true -> skip_ws w = [].
Proof.
  induction w as [|c w IH]; simpl; [reflexivity|].
  intros H. apply andb_true_iff in H as [-> H]. apply IH. exact H.
Qed.

Lemma skip_ws_blank_app w s : forallb is_ws w = true -> skip_ws (w ++ s) = skip_ws s.
Proof.
  induction w as [|c w IH]; simpl; [reflexivity|].
  intros H. apply andb_true_iff in H as [-> H]. apply IH. exact H.
Qed.

Lemma skip_ws_app_blank s w :
  forallb is_ws w = true ->
  skip_ws (s ++ w) = match skip_ws s with [] => [] | c :: r => c :: r ++ w end.
Proof.
  intros H. induction s as [|c s IH]; simpl.
  - apply skip_ws_blank. exact H.
  - destruct (is_ws c); [exact IH | reflexivity].
Qed.

Lemma skip_ws_head s c r : skip_ws s = c :: r -> is_ws c = false.
Proof.
  induction s as [|d s IH]; simpl; [discriminate|].
  destruct (is_ws d) eqn:E; [exact IH|]. intros H; inversion H; subst. exact E.
Qed.

Lemma strip_prefix_app p : forall s r, strip_prefix p s = Some r -> s = p ++ r.
Proof.
  induction p as [|a p IH]; intros s r H; simpl in H.
  - destruct s; inversion H; reflexivity.
  - destruct s as [|b s]; [discriminate|].
    destruct (a =? b) eqn:E; [|discriminate]. apply N.eqb_eq in E. subst.
    simpl. f_equal. apply IH. exact H.
Qed.

(** What an accepted text looks like at its first character. *)
Lemma JSON_parse_Ok_shape x v :
  JSON_parse x = Ok v ->
  exists c t, skip_ws x = c :: t /\
    ((c = 123 /\ exists ms, v = JObject ms) \/
     (c = 91 /\ exists vs, v = JArray vs) \/
     (c = 34 /\ exists s, v = JString s) \/
     ((c = 116 \/ c = 102) /\ exists b, v = JBool b) \/
     (c = 110 /\ v = JNull /\ exists r, t = str "ull" ++ r /\ skip_ws r = []) \/
     (exists l, v = JNumber l)).
Proof.
  unfold JSON_parse, parse_text. rewrite Nat.add_comm. cbn [Nat.add parse_value].
  destruct (skip_ws x) as [|c t]; [discriminate|].
  intros H. exists c, t. split; [reflexivity|].
  destruct (c =? 123) eqn:E1.
  { apply N.eqb_eq in E1. left. split; [exact E1|].
    destruct (skip_ws t) as [|d t1]; [discriminate|].
    destruct (d =? 125).
    - simpl in H. destruct (skip_ws t1); inversion H. eauto.
    - apply bind_Ok in H as ([v' r] & Hv & Hk).
      apply bind_Ok in Hv as ([ms rest] & _ & Hv). inversion Hv; subst.
      destruct (skip_ws r); inversion Hk. eauto. }
  destruct (c =? 91) eqn:E2.
  { apply N.eqb_eq in E2. right; left. split; [exact E2|].
    destruct (skip_ws t) as [|d t1]; [discriminate|].
    destruct (d =? 93).
    - simpl in H. destruct (skip_ws t1); inversion H. eauto.
    - apply bind_Ok in H as ([v' r] & Hv & Hk).
      apply bind_Ok in Hv as ([ms rest] & _ & Hv). inversion Hv; subst.
      destruct (skip_ws r); inversion Hk. eauto. }
  destruct (c =? 34) eqn:E3.
  { apply N.eqb_eq in E3. right; right; left. split; [exact E3|].
    apply bind_Ok in H as ([v' r] & Hv & Hk).
    apply bind_Ok in Hv as ([cs rest] & _ & Hv). inversion Hv; subst.
    destruct (skip_ws r); inversion Hk. eauto. }
  destruct (c =? 116) eqn:E4.
  { apply N.eqb_eq in E4. right; right; right; left. split; [left; exact E4|].
    apply bind_Ok in H as ([v' r] & Hv & Hk). unfold keyword in Hv.
    destruct (strip_prefix (str "rue") t); inversion Hv; subst.
    destruct (skip_ws r); inversion Hk. eauto. }
  destruct (c =? 102) eqn:E5.
  { apply N.eqb_eq in E5. right; right; right; left. split; [right; exact E5|].
    apply bind_Ok in H as ([v' r] & Hv & Hk). unfold keyword in Hv.
    destruct (strip_prefix (str "alse") t); inversion Hv; subst.
    destruct (skip_ws r); inversion Hk. eauto. }
  destruct (c =? 110) eqn:E6.
  { apply N.eqb_eq in E6. right; right; right; right; left. split; [exact E6|].
    apply bind_Ok in H as ([v' r] & Hv & Hk). unfold keyword in Hv.
    destruct (strip_prefix (str "ull") t) as [r'|] eqn:Es; inversion Hv; subst.
    apply strip_prefix_app in Es.
    destruct (skip_ws r) eqn:Er; inversion Hk. split; [reflexivity|]. eauto. }
  right; right; right; right; right.
  apply bind_Ok in H as ([v' r] & Hv & Hk).
  apply bind_Ok in Hv as ([l rest] & _ & Hv). inversion Hv; subst.
  destruct (skip_ws r); inversion Hk. eauto.
Qed.

Lemma JSON_format_true x :
  JSON_format x = true ->
  exists v, JSON_parse x = Ok v /\ typeof v = str "object".
Proof.
  unfold JSON_format. destruct (JSON_parse x) as [v| |]; try discriminate.
  unfold str_eqb. rewrite bool_decide_eq_true. eauto.
Qed.

(** Only [{], [[] and [n] can open an accepted text. *)
Lemma JSON_format_first x :
  JSON_format x = true ->
  exists c t, skip_ws x = c :: t /\ (c = 123 \/ c = 91 \/ c = 110).
Proof.
  intros H. apply JSON_format_true in H as (v & Hp & Ht).
  apply JSON_parse_Ok_shape in Hp as (c & t & Hs & Hc).
  exists c, t. split; [exact Hs|].
  destruct Hc as [[-> _] | [[-> _] | [[_ [s ->]] | [[_ [b ->]] | [[-> _] | [l ->]]]]]];
    auto; discriminate.
Qed.

End BlankFacts.

Module TrailingFacts.

Import App JSFacts BlankFacts Trailing.

Lemma is_digit_ws c : is_ws c = true -> is_digit c = false.
Proof. intros H. apply is_ws_cases in H as [-> | [-> | [-> | ->]]]; reflexivity. Qed.

Lemma hex_digit_ws c : is_ws c = true -> hex_digit c = None.
Proof. intros H. apply is_ws_cases in H as [-> | [-> | [-> | ->]]]; reflexivity. Qed.

Lemma unescape_ws c : is_ws c = true -> unescape c = None.
Proof. intros H. apply is_ws_cases in H as [-> | [-> | [-> | ->]]]; reflexivity. Qed.

Lemma blank_cons c w : forallb is_ws (c :: w) = true -> is_ws c = true /\ forallb is_ws w = true.
Proof. simpl. apply andb_true_iff. Qed.

Lemma lex_string_blank w : forallb is_ws w = true -> lex_string w = None.
Proof.
  induction w as [|c w IH]; [reflexivity|].
  intros H. apply blank_cons in H as [Hc Hw]. specialize (IH Hw).
  apply is_ws_cases in Hc as [-> | [-> | [-> | ->]]]; simpl; try reflexivity.
  rewrite IH. reflexivity.
Qed.

Lemma hex4_ws_1 a b c d : is_ws a = true -> hex4 a b c d = None.
Proof. intros H. unfold hex4. rewrite (hex_digit_ws _ H). reflexivity. Qed.

Lemma hex4_ws_2 a b c d : is_ws b = true -> hex4 a b c d = None.
Proof. intros H. unfold hex4. rewrite (hex_digit_ws _ H). destruct (hex_digit a); reflexivity. Qed.

Lemma hex4_ws_3 a b c d : is_ws c = true -> hex4 a b c d = None.
Proof.
  intros H. unfold hex4. rewrite (hex_digit_ws _ H).
  destruct (hex_digit a), (hex_digit b); reflexivity.
Qed.

Lemma hex4_ws_4 a b c d : is_ws d = true -> hex4 a b c d = None.
Proof.
  intros H. unfold hex4. rewrite (hex_digit_ws _ H).
  destruct (hex_digit a), (hex_digit b), (hex_digit c); reflexivity.
Qed.

Lemma lex_string_app_blank_aux w n :
  forallb is_ws w = true ->
  forall s, (length s <= n)%nat -> lex_string (s ++ w) = carry w (lex_string s).
Proof.
  intros Hw. induction n as [|n IH]; intros s Hn.
  { destruct s; [|simpl in Hn; lia]. simpl. apply lex_string_blank. exact Hw. }
  destruct s as [|c s]; [simpl; apply lex_string_blank; exact Hw|].
  simpl in Hn. cbn [app lex_string].
  destruct (c =? 34); [reflexivity|].
  destruct (c =? 92).
  { destruct s as [|e r1].
    - simpl. destruct w as [|e w']; [reflexivity|].
      apply blank_cons in Hw as [He _].
      pose proof (unescape_ws _ He) as Hu.
      apply is_ws_cases in He as [-> | [-> | [-> | ->]]]; simpl; reflexivity.
    - cbn [app]. destruct (e =? 117).
      + destruct r1 as [|h1 [|h2 [|h3 [|h4 r2]]]]; cbn [app].
        * destruct w as [|w1 [|w2 [|w3 [|w4 w']]]]; try reflexivity.
          apply blank_cons in Hw as [H1 _]. rewrite (hex4_ws_1 _ _ _ _ H1). reflexivity.
        * destruct w as [|w1 [|w2 [|w3 w']]]; try reflexivity.
          apply blank_cons in Hw as [H1 _]. rewrite (hex4_ws_2 _ _ _ _ H1). reflexivity.
        * destruct w as [|w1 [|w2 w']]; try reflexivity.
          apply blank_cons in Hw as [H1 _]. rewrite (hex4_ws_3 _ _ _ _ H1). reflexivity.
        * destruct w as [|w1 w']; try reflexivity.
          apply blank_cons in Hw as [H1 _]. rewrite (hex4_ws_4 _ _ _ _ H1). reflexivity.
        * rewrite IH by (simpl in Hn; lia).
          destruct (hex4 h1 h2 h3 h4); [|reflexivity].
          destruct (lex_string r2) as [[cs rest]|]; reflexivity.
      + rewrite IH by (simpl in Hn; lia).
        destruct (unescape e); [|reflexivity].
        destruct (lex_string r1) as [[cs rest]|]; reflexivity. }
  destruct (c <? 32); [reflexivity|].
  rewrite IH by lia. destruct (lex_string s) as [[cs rest]|]; reflexivity.
Qed.

Lemma lex_string_app_blank w s :
  forallb is_ws w = true -> lex_string (s ++ w) = carry w (lex_string s).
Proof. intros Hw. apply (lex_string_app_blank_aux w (length s)); [exact Hw | lia]. Qed.

Lemma digits_blank w : forallb is_ws w = true -> digits w = ([], w).
Proof.
  destruct w as [|c w]; [reflexivity|]. intros H. apply blank_cons in H as [Hc _].
  simpl. rewrite (is_digit_ws _ Hc). reflexivity.
Qed.

Lemma digits_app_blank w s :
  forallb is_ws w = true ->
  digits (s ++ w) = (fst (digits s), snd (digits s) ++ w).
Proof.
  intros Hw. induction s as [|c s IH]; simpl.
  - apply digits_blank. exact Hw.
  - destruct (is_digit c); [|reflexivity].
    rewrite IH. destruct (digits s); reflexivity.
Qed.

Lemma digits1_app_blank w s :
  forallb is_ws w = true -> digits1 (s ++ w) = carry w (digits1 s).
Proof.
  intros Hw. unfold digits1. rewrite (digits_app_blank _ _ Hw).
  destruct (digits s) as [[|d ds] rest]; reflexivity.
Qed.

Lemma lex_int_app_blank w s :
  forallb is_ws w = true -> lex_int (s ++ w) = carry w (lex_int s).
Proof.
  intros Hw. destruct s as [|c s]; simpl.
  - destruct w as [|c w']; [reflexivity|]. apply blank_cons in Hw as [Hc _].
    simpl. rewrite (is_digit_ws _ Hc).
    apply is_ws_cases in Hc as [-> | [-> | [-> | ->]]]; reflexivity.
  - destruct (c =? 48); [reflexivity|].
    destruct (is_digit c); [|reflexivity].
    rewrite (digits_app_blank _ _ Hw). destruct (digits s); reflexivity.
Qed.

Lemma lex_frac_app_blank w s :
  forallb is_ws w = true -> lex_frac (s ++ w) = carry w (lex_frac s).
Proof.
  intros Hw. destruct s as [|c s]; simpl.
  - destruct w as [|c w']; [reflexivity|]. apply blank_cons in Hw as [Hc _].
    simpl. apply is_ws_cases in Hc as [-> | [-> | [-> | ->]]]; reflexivity.
  - destruct (c =? 46); [|reflexivity].
    rewrite (digits1_app_blank _ _ Hw). destruct (digits1 s) as [[ds rest]|]; reflexivity.
Qed.

Lemma lex_exp_app_blank w s :
  forallb is_ws w = true -> lex_exp (s ++ w) = carry w (lex_exp s).
Proof.
  intros Hw. destruct s as [|c s]; simpl.
  - destruct w as [|c w']; [reflexivity|]. apply blank_cons in Hw as [Hc _].
    simpl. apply is_ws_cases in Hc as [-> | [-> | [-> | ->]]]; reflexivity.
  - destruct ((c =? 101) || (c =? 69)); [|reflexivity].
    destruct s as [|sg r1]; simpl.
    + destruct w as [|sg w']; [reflexivity|].
      apply blank_cons in Hw as [Hc _].
      apply is_ws_cases in Hc as [-> | [-> | [-> | ->]]]; reflexivity.
    + destruct ((sg =? 43) || (sg =? 45)).
      * rewrite (digits1_app_blank _ _ Hw). destruct (digits1 r1) as [[ds rest]|]; reflexivity.
      * change (sg :: r1 ++ w) with ((sg :: r1) ++ w).
        rewrite (digits1_app_blank _ _ Hw).
        destruct (digits1 (sg :: r1)) as [[ds rest]|]; reflexivity.
Qed.

Lemma lex_unsigned_app_blank w s :
  forallb is_ws w = true -> lex_unsigned (s ++ w) = carry w (lex_unsigned s).
Proof.
  intros Hw. unfold lex_unsigned. rewrite (lex_int_app_blank _ _ Hw).
  destruct (lex_int s) as [[i r1]|]; [|reflexivity]. simpl.
  rewrite (lex_frac_app_blank _ _ Hw).
  destruct (lex_frac r1) as [[f r2]|]; [|reflexivity]. simpl.
  rewrite (lex_exp_app_blank _ _ Hw).
  destruct (lex_exp r2) as [[e r3]|]; reflexivity.
Qed.

Lemma lex_number_app_blank w c s :
  forallb is_ws w = true -> lex_number ((c :: s) ++ w) = carry w (lex_number (c :: s)).
Proof.
  intros Hw. cbn [app lex_number].
  destruct (c =? 45).
  - rewrite (lex_unsigned_app_blank _ _ Hw).
    destruct (lex_unsigned s) as [[l rest]|]; reflexivity.
  - change (c :: s ++ w) with ((c :: s) ++ w). apply lex_unsigned_app_blank. exact Hw.
Qed.

Lemma strip_prefix_app_blank p w :
  forallb is_ws w = true -> forallb (fun c => negb (is_ws c)) p = true ->
  forall s, strip_prefix p (s ++ w)
            = match strip_prefix p s with Some r => Some (r ++ w) | None => None end.
Proof.
  intros Hw. induction p as [|a p IH]; intros Hp s; simpl.
  - destruct s; destruct w; reflexivity.
  - simpl in Hp. apply andb_true_iff in Hp as [Ha Hp].
    destruct s as [|b s]; simpl.
    + destruct w as [|c w']; [reflexivity|]. apply blank_cons in Hw as [Hc _].
      destruct (a =? c) eqn:E; [|reflexivity].
      apply N.eqb_eq in E. subst. rewrite Hc in Ha. discriminate.
    + destruct (a =? b); [apply IH; exact Hp | reflexivity].
Qed.

Lemma keyword_app_blank k v w s :
  forallb is_ws w = true -> forallb (fun c => negb (is_ws c)) (str k) = true ->
  keyword k v (s ++ w) = carry_result w (keyword k v s).
Proof.
  intros Hw Hk. unfold keyword. rewrite (strip_prefix_app_blank _ _ Hw Hk).
  destruct (strip_prefix (str k) s); reflexivity.
Qed.

Lemma bind_carry {A B} w (r : result (A * jsstring)) (k k' : A * jsstring -> result B) :
  (forall a t, r = Ok (a, t) -> k (a, t ++ w) = k' (a, t)) ->
  bind (carry_result w r) k = bind r k'.
Proof. destruct r as [[a t]| |]; simpl; auto. Qed.

(** White space after the input is left over by every sub-parser. *)
Lemma parse_app_blank w fuel :
  forallb is_ws w = true ->
  (forall s, parse_value fuel (s ++ w) = carry_result w (parse_value fuel s)) /\
  (forall s acc, parse_elements fuel (s ++ w) acc = carry_result w (parse_elements fuel s acc)) /\
  (forall s acc, parse_members fuel (s ++ w) acc = carry_result w (parse_members fuel s acc)).
Proof.
  intros Hw. induction fuel as [|n (IHv & IHe & IHm)]; [repeat split; reflexivity|].
  repeat split.
  - intros s. cbn [parse_value]. rewrite (skip_ws_app_blank _ _ Hw).
    destruct (skip_ws s) as [|c t]; [reflexivity|].
    destruct (c =? 123).
    { rewrite (skip_ws_app_blank _ _ Hw).
      destruct (skip_ws t) as [|d t1]; [reflexivity|].
      destruct (d =? 125); [reflexivity|].
      rewrite IHm. destruct (parse_members n t []) as [[ms rest]| |]; reflexivity. }
    destruct (c =? 91).
    { rewrite (skip_ws_app_blank _ _ Hw).
      destruct (skip_ws t) as [|d t1]; [reflexivity|].
      destruct (d =? 93); [reflexivity|].
      rewrite IHe. destruct (parse_elements n t []) as [[vs rest]| |]; reflexivity. }
    destruct (c =? 34).
    { rewrite (lex_string_app_blank _ _ Hw).
      destruct (lex_string t) as [[cs rest]|]; reflexivity. }
    destruct (c =? 116); [apply keyword_app_blank; [exact Hw | reflexivity]|].
    destruct (c =? 102); [apply keyword_app_blank; [exact Hw | reflexivity]|].
    destruct (c =? 110); [apply keyword_app_blank; [exact Hw | reflexivity]|].
    change (c :: t ++ w) with ((c :: t) ++ w).
    rewrite (lex_number_app_blank _ _ _ Hw).
    destruct (lex_number (c :: t)) as [[l rest]|]; reflexivity.
  - intros s acc. cbn [parse_elements]. rewrite IHv.
    destruct (parse_value n s) as [[v t]| |]; try reflexivity. simpl.
    rewrite (skip_ws_app_blank _ _ Hw).
    destruct (skip_ws t) as [|d t1]; [reflexivity|].
    destruct (d =? 44); [apply IHe|].
    destruct (d =? 93); reflexivity.
  - intros s acc. cbn [parse_members]. rewrite (skip_ws_app_blank _ _ Hw).
    destruct (skip_ws s) as [|q t]; [reflexivity|].
    destruct (q =? 34); [|reflexivity].
    rewrite (lex_string_app_blank _ _ Hw).
    destruct (lex_string t) as [[k t1]|]; [|reflexivity]. simpl.
    rewrite (skip_ws_app_blank _ _ Hw).
    destruct (skip_ws t1) as [|col t2]; [reflexivity|].
    destruct (col =? 58); [|reflexivity].
    rewrite IHv. destruct (parse_value n t2) as [[v t3]| |]; try reflexivity. simpl.
    rewrite (skip_ws_app_blank _ _ Hw).
    destruct (skip_ws t3) as [|d t4]; [reflexivity|].
    destruct (d =? 44); [apply IHm|].
    destruct (d =? 125); reflexivity.
Qed.

Lemma parse_text_app_blank w fuel s :
  forallb is_ws w = true -> parse_text fuel (s ++ w) = parse_text fuel s.
Proof.
  intros Hw. unfold parse_text. rewrite (proj1 (parse_app_blank w fuel Hw)).
  destruct (parse_value fuel s) as [[v t]| |]; try reflexivity. simpl.
  rewrite (skip_ws_app_blank _ _ Hw). destruct (skip_ws t); reflexivity.
Qed.

Lemma parse_text_blank_app w fuel s :
  forallb is_ws w = true -> parse_text fuel (w ++ s) = parse_text fuel s.
Proof.
  intros Hw. unfold parse_text. destruct fuel as [|n]; [reflexivity|].
  cbn [parse_value]. rewrite (skip_ws_blank_app _ _ Hw). reflexivity.
Qed.

(** [JSON.parse] ignores white space around the text. *)
Lemma JSON_parse_trim w1 w2 s :
  forallb is_ws w1 = true -> forallb is_ws w2 = true ->
  JSON_parse (w1 ++ s ++ w2) = JSON_parse s.
Proof.
  intros H1 H2. unfold JSON_parse at 1.
  rewrite (parse_text_blank_app _ _ _ H1), (parse_text_app_blank _ _ _ H2).
  apply JSON_parse_fuel_irrelevant. rewrite !length_app. lia.
Qed.

End TrailingFacts.

(** ** Further properties of the ["JSON"] and ["ObjectId"] formats *)

Module FormatExtras.

Import Backend App JSFacts BlankFacts TrailingFacts.

(** White space around a text does not change what the ["JSON"] format
    answers (lines 75-84). *)
Theorem JSON_format_trim (w1 w2 x : jsstring) :
  forallb is_ws w1 = true ->
  forallb is_ws w2 = true ->
  JSON_format (w1 ++ x ++ w2) = JSON_format x.
Proof.
  intros H1 H2. unfold JSON_format. rewrite (JSON_parse_trim _ _ _ H1 H2). reflexivity.
Qed.

Lemma JSON_format_trim_witness :
  JSON_format ([32; 10] ++ str "{}" ++ [9; 13]) = JSON_format (str "{}").
Proof. apply (JSON_format_trim [32; 10] [9; 13] (str "{}")); reflexivity. Defined.

(** A text the ["JSON"] format accepts opens, after white space, with a
    brace or a bracket, or it is the word [null] with white space around
    it (lines 75-84). *)
Theorem JSON_format_opening (x : jsstring) :
  JSON_format x = true ->
  (exists r, skip_ws x = 123 :: r)
  \/ (exists r, skip_ws x = 91 :: r)
  \/ (exists r, skip_ws x = str "null" ++ r /\ skip_ws r = []).
Proof.
  intros H. apply JSON_format_true in H as (v & Hp & Ht).
  apply JSON_parse_Ok_shape in Hp as (c & t & Hs & Hc).
  destruct Hc as [[-> _] | [[-> _] | [[_ [s ->]] | [[_ [b ->]] | [(-> & _ & r & -> & Hr) | [l ->]]]]]];
    try discriminate.
  - left. exists t. exact Hs.
  - right; left. exists t. exact Hs.
  - right; right. exists r. split; [exact Hs | exact Hr].
Qed.

Lemma JSON_format_opening_witness :
  (exists r, skip_ws (str "  [1, 2]") = 123 :: r)
  \/ (exists r, skip_ws (str "  [1, 2]") = 91 :: r)
  \/ (exists r, skip_ws (str "  [1, 2]") = str "null" ++ r /\ skip_ws r = []).
Proof. apply (JSON_format_opening (str "  [1, 2]")). vm_compute. reflexivity. Defined.

(** The empty string and strings of white space only are rejected by the
    ["JSON"] format: [JSON.parse] throws on them and the [catch] answers
    [false] (lines 78-82). *)
Theorem JSON_format_blank (x : jsstring) :
  forallb is_ws x = true -> JSON_format x = false.
Proof.
  intros H. destruct (JSON_format x) eqn:E; [|reflexivity].
  apply JSON_format_first in E as (c & t & Hs & _).
  rewrite (skip_ws_blank _ H) in Hs. discriminate.
Qed.

Lemma JSON_format_blank_witness :
  JSON_format [] = false /\ JSON_format [32; 9; 10] = false.
Proof.
  split; [apply (JSON_format_blank []) | apply (JSON_format_blank [32; 9; 10])]; reflexivity.
Defined.

(** No string satisfies both the ["ObjectId"] format (line 70) and the
    ["JSON"] format (lines 75-84): an ObjectId has 24 code units and
    starts with a hexadecimal digit. *)
Theorem ObjectId_is_not_JSON (x : jsstring) :
  ObjectId x = true -> length x = 24%nat /\ JSON_format x = false.
Proof.
  unfold ObjectId. intros H. apply andb_true_iff in H as [Hl Hh].
  apply Nat.eqb_eq in Hl. split; [exact Hl|].
  destruct x as [|c r]; [discriminate|].
  simpl in Hh. apply andb_true_iff in Hh as [Hc _]. apply bool_decide_eq_true in Hc.
  destruct (JSON_format (c :: r)) eqn:E; [|reflexivity]. exfalso.
  assert (Hw : is_ws c = false).
  { destruct (is_ws c) eqn:Ew; [|reflexivity].
    rewrite (hex_digit_ws _ Ew) in Hc. destruct Hc as [? Hc]. discriminate. }
  apply JSON_format_first in E as (c' & t & Hs & Hc').
  simpl in Hs. rewrite Hw in Hs. inversion Hs; subst c' t.
  destruct Hc as [d Hd].
  destruct Hc' as [-> | [-> | ->]]; vm_compute in Hd; discriminate.
Qed.

Lemma ObjectId_is_not_JSON_witness :
  length (str "507f1f77bcf86cd799439011") = 24%nat
  /\ JSON_format (str "507f1f77bcf86cd799439011") = false.
Proof. apply (ObjectId_is_not_JSON (str "507f1f77bcf86cd799439011")). reflexivity. Defined.

End FormatExtras.

(** ** Further properties of the not-implemented fallback *)

Module HandlerExtras.

Import Backend App AppFacts Sample MoreSamples.


(** When the status that [mockResponseForOperation] returns is no HTTP
    status code (outside 100..999), [res.status(status).json(mock)] throws
    in [notImplemented] (line 108): the handler's promise is rejected with
    a RangeError and no body is sent. *)
Theorem notImplemented_invalid_status (c : Context) (req : ExpressReq) (res : ExpressRes)
  (op : OperationDescriptor) (id : jsstring) (s : Z) (m : value) :
  operation c = Some op ->
  operationId op = Some id ->
  id <> [] ->
  mockResponseForOperation (api c) id = (s, m) ->
  (s < 100 \/ 999 < s)%Z ->
  sent (fst (notImplemented c req res)) = sent res
  /\ exists msg, snd (notImplemented c req res) = ReturnPromise (Rejected (RangeError msg)).
Proof.
  intros Hop Hid Hne Hm Hs.
  rewrite (MockFacts.notImplemented_mock c req res op id Hop Hid Hne), Hm.
  unfold async_call, json, status, valid_status. cbn.
  replace ((100 <=? s)%Z && (s <=? 999)%Z) with false
    by (symmetry; apply andb_false_iff; rewrite !Z.leb_gt; lia).
  cbn. split; [reflexivity | eexists; reflexivity].
Qed.

Lemma notImplemented_invalid_status_witness :
  sent (fst (notImplemented
               (context (backend (environment_with [noStatus]))
                  (request_ "GET" "/nostatus" None) (Some noStatus) (Some Valid))
               (request_ "GET" "/nostatus" None) fresh))
  = sent fresh
  /\ exists msg,
       snd (notImplemented
              (context (backend (environment_with [noStatus]))
                 (request_ "GET" "/nostatus" None) (Some noStatus) (Some Valid))
              (request_ "GET" "/nostatus" None) fresh)
       = ReturnPromise (Rejected (RangeError msg)).
Proof.
  apply (notImplemented_invalid_status _ _ _ noStatus (str "NoStatus") 0%Z
           (JObject [member "ok" (JBool true)]));
    try reflexivity; [discriminate | lia].
Defined.

End HandlerExtras.
